(** * BWSN analysis-module gateway: registry, packet codec, telemetry
      classifier and pairing state machine

    A shallow embedding of [white_list.h], [analysis_module.h] and the
    event handlers of [main.c], together with the properties the
    specification states about them. *)

From Stdlib Require Import ZArith List Bool Lia QArith Qpower.
From Stdlib Require Import Floats.SpecFloat.
Import ListNotations.

Local Open Scope Z_scope.

(* ================================================================= *)
(** * IEEE-754 arithmetic as the C compiler gives it to the firmware *)
(* ================================================================= *)

(** C [float] is binary32 and C [double] is binary64.  Both are values of
    Rocq's [spec_float]; the operations are the correctly rounded ones of
    [SpecFloat] at the two formats. *)
Module IEEE.

Definition prec32 : Z := 24.
Definition emax32 : Z := 128.
Definition prec64 : Z := 53.
Definition emax64 : Z := 1024.

(** [(float) n] for an integer [n]. *)
Definition float_of_int (n : Z) : spec_float :=
  binary_normalize prec32 emax32 n 0 false.

Definition fadd32 : spec_float -> spec_float -> spec_float :=
  SFadd prec32 emax32.
Definition fdiv32 : spec_float -> spec_float -> spec_float :=
  SFdiv prec32 emax32.
Definition fmul64 : spec_float -> spec_float -> spec_float :=
  SFmul prec64 emax64.

(** The implicit promotion [float -> double] of the usual arithmetic
    conversions. *)
Definition double_of_float (x : spec_float) : spec_float :=
  match x with
  | S754_finite s m e => binary_round prec64 emax64 s m e
  | _ => x
  end.

(** The conversion [double -> float] on assignment or return. *)
Definition float_of_double (x : spec_float) : spec_float :=
  match x with
  | S754_finite s m e => binary_round prec32 emax32 s m e
  | _ => x
  end.

(** [(double) n] for an integer literal such as [36.0]. *)
Definition double_of_int (n : Z) : spec_float :=
  binary_normalize prec64 emax64 n 0 false.

(** The decimal literals [0.3] and [0.7] of type [double]: the binary64
    numbers nearest to 3/10 and 7/10. *)
Definition double_0_3 : spec_float :=
  S754_finite false 5404319552844595 (-54).
Definition double_0_7 : spec_float :=
  S754_finite false 6305039478318694 (-53).

(** Relational operators of C on doubles; every comparison with a NaN
    is false. *)
Definition fgt (x y : spec_float) : bool := SFltb y x.
Definition fge (x y : spec_float) : bool := SFleb y x.
Definition flt (x y : spec_float) : bool := SFltb x y.
Definition fle (x y : spec_float) : bool := SFleb x y.

Definition is_finite (x : spec_float) : bool :=
  match x with
  | S754_zero _ | S754_finite _ _ _ => true
  | _ => false
  end.

Definition sign_bit (x : spec_float) : bool :=
  match x with
  | S754_zero s | S754_infinity s | S754_finite s _ _ => s
  | S754_nan => false
  end.

(** The rational number a finite float stands for: [(-1)^s * m * 2^e]. *)
Definition F2Q (x : spec_float) : Q :=
  match x with
  | S754_finite s m e => (inject_Z (cond_Zopp s (Zpos m)) * 2 ^ e)%Q
  | _ => 0%Q
  end.

(** The integer [x * 2^(-emin)] for a finite [x] of the format
    [(prec, emax)]. *)
Definition scaled (prec emax : Z) (x : spec_float) : Z :=
  match x with
  | S754_finite s m e => cond_Zopp s (Zpos m * 2 ^ (e - emin prec emax))
  | _ => 0
  end.

(** Some [float] literals. *)
Definition float_36_5 : spec_float := S754_finite false 9568256 (-18).
Definition float_38_5 : spec_float := S754_finite false 10092544 (-18).

End IEEE.

(* ================================================================= *)
(** * analysis_module.h *)
(* ================================================================= *)

Module Analysis.
Import IEEE.

Definition TEMP_MAX_SCORE : Z := 3.

Inductive liferate_t : Type :=
| UNDEFINED
| NORMAL
| CRITICAL
| VERY_CRITICAL.

(** The enumerators' integer codes. *)
Definition liferate_code (l : liferate_t) : Z :=
  match l with
  | UNDEFINED => -1
  | NORMAL => 0
  | CRITICAL => 1
  | VERY_CRITICAL => 2
  end.

(** [get_temp_score]: [temp] is promoted to [double] in each
    comparison with a [double] literal. *)
Definition get_temp_score (temp : spec_float) : Z :=
  let t := double_of_float temp in
  if fgt t (double_of_int 36) && fle t (double_of_int 38) then 0
  else if fgt t (double_of_int 35) && fle t (double_of_int 39) then 1
  else if fgt t (double_of_int 39) then 2
  else if fle t (double_of_int 35) then 3
  else -1.

(** The part of [start_analysis] after the score has been read: the
    ratio is a [float] division, the bounds are [double] literals. *)
Definition classify_score (critical_meas_score : Z) : liferate_t :=
  let critical_max_score := TEMP_MAX_SCORE in
  let res_score :=
    fdiv32 (float_of_int critical_meas_score)
           (float_of_int critical_max_score) in
  let r := double_of_float res_score in
  if fge r (double_of_int 0) && flt r double_0_3 then NORMAL
  else if fge r double_0_3 && flt r double_0_7 then CRITICAL
  else if fge r double_0_7 && fle r (double_of_int 1) then VERY_CRITICAL
  else UNDEFINED.

(** [start_analysis] reads the global [temp_data]. *)
Definition start_analysis (temp_data : spec_float) : liferate_t :=
  classify_score (get_temp_score temp_data).

(** The body of the [for] loop of [convert_temp_data_to_float], run for
    [n] more iterations from index [i]. *)
Fixpoint convert_loop (n : nat) (i : Z) (temp_lsb : Z)
         (ret_val : spec_float) : spec_float :=
  match n with
  | O => ret_val
  | S n' =>
      let bit := Z.land (Z.shiftr temp_lsb (7 - i)) 1 in
      let ret_val' :=
        fadd32 ret_val
               (fdiv32 (float_of_int bit) (float_of_int (Z.shiftl 2 i))) in
      convert_loop n' (i + 1) temp_lsb ret_val'
  end.

Definition convert_temp_data_to_float (temp_msb temp_lsb : Z)
  : spec_float :=
  let ret_val := float_of_int (Z.land temp_msb 127) in
  let ret_val := convert_loop 8 0 temp_lsb ret_val in
  let sgn :=
    if Z.eqb (Z.land (Z.shiftr temp_msb 7) 1) 0
    then double_of_int 1
    else SFopp (double_of_int 1) in
  float_of_double (fmul64 (double_of_float ret_val) sgn).

(** [push_temp_data] overwrites the stored sample. *)
Definition push_temp_data (temp : spec_float) (temp_data : spec_float)
  : spec_float := temp.

End Analysis.

(* ================================================================= *)
(** * white_list.h *)
(* ================================================================= *)

Module WhiteList.

(** NimBLE's [ble_uuid16_t]: the type tag of [ble_uuid_t u] and the
    16-bit value. *)
Record ble_uuid16_t : Type := mk_uuid16 {
  uuid_type : Z;
  uuid_value : Z
}.

Definition BLE_UUID_TYPE_16 : Z := 16.
Definition BLE_UUID16_INIT (v : Z) : ble_uuid16_t :=
  mk_uuid16 BLE_UUID_TYPE_16 v.

(** NimBLE's [ble_addr_t]: address type and the six address bytes. *)
Record ble_addr_t : Type := mk_addr {
  addr_type : Z;
  addr_val : list Z
}.

Record device_data_t : Type := mk_device {
  device_uuid : ble_uuid16_t;
  device_addr : ble_addr_t;
  addr_is_empty : bool
}.

Inductive esp_err_t : Type := ESP_OK | ESP_FAIL.

(** The three globals of the header: the flag, the length (a
    [uint8_t]) and the table kept in RTC memory. *)
Record wl_state : Type := mk_wl {
  wl_is_initialised : bool;
  white_list_len : Z;
  white_list : list device_data_t
}.

Definition white_list_size : Z := 3.

Definition zero_addr : ble_addr_t := mk_addr 0 [0; 0; 0; 0; 0; 0].

(** The state a cold boot starts from. *)
Definition wl_boot : wl_state :=
  mk_wl false 0
        [ mk_device (BLE_UUID16_INIT 0x1809) zero_addr true;
          mk_device (BLE_UUID16_INIT 0x1822) zero_addr true;
          mk_device (BLE_UUID16_INIT 0x183E) zero_addr true ].

(** Arithmetic on [uint8_t]. *)
Definition u8 (z : Z) : Z := z mod 256.

Definition uuids16_are_equal (uuid1 uuid2 : ble_uuid16_t) : bool :=
  if uuid_type uuid1 =? uuid_type uuid2 then
    if uuid_value uuid1 =? uuid_value uuid2 then true else false
  else false.

Fixpoint bytes_eqb (l1 l2 : list Z) : bool :=
  match l1, l2 with
  | [], [] => true
  | x :: l1', y :: l2' => (x =? y) && bytes_eqb l1' l2'
  | _, _ => false
  end.

(** [memcmp (addr1->val, addr2->val, 6) == 0] *)
Definition addrs_are_equal (addr1 addr2 : ble_addr_t) : bool :=
  if addr_type addr1 =? addr_type addr2 then
    if bytes_eqb (firstn 6 (addr_val addr1)) (firstn 6 (addr_val addr2))
    then true else false
  else false.

(** The loop of [get_white_list_len] over the slots, [cnt] being the
    counter so far. *)
Fixpoint count_loop (wl : list device_data_t) (cnt : Z) : Z :=
  match wl with
  | [] => cnt
  | d :: rest =>
      count_loop rest (if addr_is_empty d then cnt else u8 (cnt + 1))
  end.

Definition get_white_list_len (s : wl_state) : Z :=
  count_loop (white_list s) 0.

Definition init_white_list (s : wl_state) : esp_err_t * wl_state :=
  if wl_is_initialised s then (ESP_FAIL, s)
  else (ESP_OK, mk_wl true (get_white_list_len s) (white_list s)).

Definition deinit_white_list (s : wl_state) : esp_err_t * wl_state :=
  if negb (wl_is_initialised s) then (ESP_FAIL, s)
  else (ESP_OK, mk_wl false 0 (white_list s)).

(** The loop of [push_to_white_list]: the first empty slot with the
    given uuid takes the address; [None] when the loop runs out. *)
Fixpoint push_loop (wl : list device_data_t)
         (uuid : ble_uuid16_t) (addr : ble_addr_t)
  : option (list device_data_t) :=
  match wl with
  | [] => None
  | d :: rest =>
      if addr_is_empty d && uuids16_are_equal (device_uuid d) uuid
      then Some (mk_device (device_uuid d) addr false :: rest)
      else option_map (cons d) (push_loop rest uuid addr)
  end.

Definition push_to_white_list (uuid : ble_uuid16_t) (addr : ble_addr_t)
           (s : wl_state) : esp_err_t * wl_state :=
  if negb (wl_is_initialised s) then (ESP_FAIL, s)
  else if white_list_len s =? white_list_size then (ESP_FAIL, s)
  else match push_loop (white_list s) uuid addr with
       | Some wl' =>
           (ESP_OK, mk_wl (wl_is_initialised s)
                          (u8 (white_list_len s + 1)) wl')
       | None => (ESP_FAIL, s)
       end.

(** The loop shared in shape by the two removals: the first occupied
    slot that satisfies [hit] is marked empty. *)
Fixpoint remove_loop (hit : device_data_t -> bool)
         (wl : list device_data_t) : option (list device_data_t) :=
  match wl with
  | [] => None
  | d :: rest =>
      if negb (addr_is_empty d) && hit d
      then Some (mk_device (device_uuid d) (device_addr d) true :: rest)
      else option_map (cons d) (remove_loop hit rest)
  end.

Definition remove_with (hit : device_data_t -> bool) (s : wl_state)
  : esp_err_t * wl_state :=
  if negb (wl_is_initialised s) then (ESP_FAIL, s)
  else if white_list_len s =? 0 then (ESP_FAIL, s)
  else match remove_loop hit (white_list s) with
       | Some wl' =>
           (ESP_OK, mk_wl (wl_is_initialised s)
                          (u8 (white_list_len s - 1)) wl')
       | None => (ESP_FAIL, s)
       end.

Definition remove_from_white_list_by_addr (addr : ble_addr_t)
  : wl_state -> esp_err_t * wl_state :=
  remove_with (fun d => addrs_are_equal (device_addr d) addr).

Definition remove_from_white_list_by_uuid16 (uuid : ble_uuid16_t)
  : wl_state -> esp_err_t * wl_state :=
  remove_with (fun d => uuids16_are_equal (device_uuid d) uuid).

Definition uuid_is_interesting (uuid : ble_uuid16_t) (s : wl_state)
  : bool :=
  if negb (wl_is_initialised s) then false
  else if white_list_len s =? white_list_size then false
  else existsb (fun d => addr_is_empty d
                         && uuids16_are_equal (device_uuid d) uuid)
               (white_list s).

Definition white_list_contains_addr (addr : ble_addr_t) (s : wl_state)
  : bool :=
  if negb (wl_is_initialised s) then false
  else if white_list_len s =? 0 then false
  else existsb (fun d => negb (addr_is_empty d)
                         && addrs_are_equal (device_addr d) addr)
               (white_list s).

Definition white_list_is_empty (s : wl_state) : bool :=
  white_list_len s =? 0.

(** NimBLE's [ble_addr_t] is one type byte and six address bytes. *)
Definition sizeof_ble_addr_t : Z := 7.

(** What a call of [get_addr_white_list] does to memory.
    [export_fail]: it returns [ESP_FAIL] and [*addr] is not assigned.
    [export_ok size block]: it returns [ESP_OK]; [*addr] is a block of
    [size] bytes from [malloc], and [block] are the entries written to
    it, entry [k] at byte offset [k * sizeof (ble_addr_t)], all of them
    inside the block.
    [export_overflow size block next]: after the entries [block], the
    write of [next] ends past the block's [size] bytes. *)
Inductive export_t : Type :=
| export_fail
| export_ok (size : Z) (block : list ble_addr_t)
| export_overflow (size : Z) (block : list ble_addr_t) (next : ble_addr_t).

(** The loop of [get_addr_white_list] over the slots: [cnt] entries,
    [block], have been written so far into a block of [size] bytes.
    The assignment [( *addr)[cnt++] = ...] writes the bytes from
    [cnt * sizeof (ble_addr_t)] up to [(cnt + 1) * sizeof (ble_addr_t)].
    As long as the writes stay inside a block, [cnt] is the length of
    [block]. *)
Fixpoint addr_loop (wl : list device_data_t) (size cnt : Z)
         (block : list ble_addr_t) : export_t :=
  match wl with
  | [] => export_ok size block
  | d :: rest =>
      if negb (addr_is_empty d) then
        if (cnt + 1) * sizeof_ble_addr_t <=? size
        then addr_loop rest size (u8 (cnt + 1)) (block ++ [device_addr d])
        else export_overflow size block (device_addr d)
      else addr_loop rest size cnt block
  end.

(** [get_addr_white_list]: the block comes from
    [malloc (white_list_len)], that many bytes; the allocation is taken
    to succeed. *)
Definition get_addr_white_list (s : wl_state) : export_t :=
  if negb (wl_is_initialised s) then export_fail
  else if white_list_len s =? 0 then export_fail
  else addr_loop (white_list s) (white_list_len s) 0 [].

End WhiteList.

(* ================================================================= *)
(** * app_packet.h *)
(* ================================================================= *)

Module AppPacket.

(** Modelled from the spec: [app_packet.h] is not among the sources.
    The header is two bytes; the three discriminants [DATA_HEADER],
    [REG_HEADER] and [DEL_HEADER] are constants of that file whose
    values the handlers only compare against. *)
Definition HEADER_SIZE : Z := 2.

Class app_packet_h : Type := {
  DATA_HEADER : Z;
  REG_HEADER : Z;
  DEL_HEADER : Z
}.

(** Modelled from the spec: [open_packet] of [app_packet.h] (section
    4.3, "open(rawBytes, declaredLength) -> (header, body)").  [None]
    is the [-1] result, MalformedPacket: the declared length is below
    the header size or beyond the supplied bytes.  Otherwise the header
    is the 16-bit value of the first two bytes and the body is what
    remains of the declared length.  The byte order, which the
    specification leaves open, is the order in which [main.c] prints
    the header: first byte high. *)
Definition open_packet (data : list Z) (len : Z) : option (Z * list Z) :=
  if (len <? HEADER_SIZE) || (Z.of_nat (length data) <? len) then None
  else
    Some (nth 0 data 0 * 256 + nth 1 data 0,
          firstn (Z.to_nat (len - HEADER_SIZE))
                 (skipn (Z.to_nat HEADER_SIZE) data)).

End AppPacket.

(* ================================================================= *)
(** * main.c: the handlers *)
(* ================================================================= *)

Module Gateway.
Import IEEE Analysis WhiteList AppPacket.

Definition RSSI_ACCEPTABLE_LVL : Z := -50.
Definition DEEP_SLEEP_CYCLE_TIME : Z := 5 * 1000000.

(** NimBLE's [BLE_HS_FOREVER] is [INT32_MAX]; [BLE_ERR_REM_USER_CONN_TERM]
    is [0x13]. *)
Definition BLE_HS_FOREVER : Z := 2147483647.
Definition BLE_ERR_REM_USER_CONN_TERM : Z := 0x13.

Inductive g_device_mode_t : Type :=
| UNSPECIFIED_MODE
| REGISTRATION_MODE
| DELETION_MODE.

Definition mode_eqb (a b : g_device_mode_t) : bool :=
  match a, b with
  | UNSPECIFIED_MODE, UNSPECIFIED_MODE
  | REGISTRATION_MODE, REGISTRATION_MODE
  | DELETION_MODE, DELETION_MODE => true
  | _, _ => false
  end.

Record ble_gap_disc_params : Type := mk_disc_params {
  itvl : Z;
  window : Z;
  filter_policy : Z;
  limited : Z;
  passive : Z;
  filter_duplicates : Z
}.

(** Where a run leaves the behaviour that C defines. *)
Inductive undefined_t : Type :=
| heap_overflow          (* a write past the end of a block from malloc *)
| free_unassigned        (* free of a pointer that was never assigned *)
| read_out_of_bounds     (* a read outside an array *)
| array_size_not_positive. (* a variable-length array of size <= 0 *)

(** The calls the handlers make into the radio stack, the LED driver
    and the sleep controller.  [ble_gap_wl_set] receives [None] when the
    pointer it is handed was never assigned.  A run that leaves defined
    behaviour ends with [undefined_behaviour]: nothing is known of what
    the program does from there on, and the run is followed no
    further. *)
Inductive call : Type :=
| led_turn_on
| led_turn_off
| led_start_blink (on_ms off_ms : Z)
| ble_gap_wl_set (addrs : option (list ble_addr_t)) (count : Z)
| ble_gap_disc (own_addr_type duration_ms : Z)
               (disc_params : ble_gap_disc_params)
| ble_gap_disc_cancel
| ble_gap_connect (own_addr_type : Z) (peer : ble_addr_t)
                  (duration_ms : Z)
| ble_gap_terminate (conn_handle hci_reason : Z)
| esp_sleep_enable_timer_wakeup (time_in_us : Z)
| esp_deep_sleep_start
| undefined_behaviour (why : undefined_t).

(** A call as it was issued, with the white list as it stood then. *)
Record issued : Type := mk_issued {
  issued_call : call;
  issued_wl : wl_state
}.

(** The globals of the firmware, and the calls issued so far, oldest
    first. *)
Record gw_state : Type := mk_gw {
  g_device_mode : g_device_mode_t;
  g_ble_addr_type : Z;
  wl : wl_state;
  temp_data : spec_float;
  calls : list issued
}.

(** The parts of NimBLE's event structures the handlers read. *)
Record ble_hs_adv_fields : Type := mk_fields {
  uuids16 : list ble_uuid16_t;      (* [num_uuids16] is its length *)
  mfg_data : list Z;
  mfg_data_len : Z
}.

Record ble_gap_disc_desc : Type := mk_disc_desc {
  addr : ble_addr_t;
  rssi : Z
}.

(** An event of [ble_gap_event], with what the handler finds outside
    the globals while it handles it.  For a discovery event the fields
    are what [ble_hs_adv_parse_fields] made of the advertisement.  A
    connect event carries [status] and [conn_handle] only; the handler
    declares a connection descriptor, which it does not initialise, and
    has [ble_gap_conn_find] fill it.  [conn_desc] is the peer address
    the descriptor's bytes spell when the handler is entered, and [conn]
    is the peer of the connection NimBLE knows under [conn_handle], if
    it knows one. *)
Inductive ble_gap_event_t : Type :=
| BLE_GAP_EVENT_DISC (fields : ble_hs_adv_fields)
                     (disc_desc : ble_gap_disc_desc)
| BLE_GAP_EVENT_CONNECT (status conn_handle : Z)
                        (conn_desc : ble_addr_t)
                        (conn : option ble_addr_t)
| BLE_GAP_EVENT_DISCONNECT (reason : Z)
| BLE_GAP_EVENT_DISC_COMPLETE
| BLE_GAP_EVENT_OTHER.

(** [ble_gap_conn_find (conn_handle, &conn_desc)]: the peer address in
    the descriptor after the call.  With a connection the descriptor is
    written; without one it is left as it was.  The handler does not
    look at the return value, which tells the two apart. *)
Definition ble_gap_conn_find (conn : option ble_addr_t)
           (conn_desc : ble_addr_t) : ble_addr_t :=
  match conn with
  | Some peer_id_addr => peer_id_addr
  | None => conn_desc
  end.

(** ** A state monad over the globals *)

(** The value is [None] when the run has left defined behaviour; the
    state is then the one in which it did. *)
Definition M (A : Type) : Type := gw_state -> option A * gw_state.

Definition ret {A : Type} (a : A) : M A := fun s => (Some a, s).

Definition bind {A B : Type} (m : M A) (k : A -> M B) : M B :=
  fun s => match m s with
           | (Some a, s') => k a s'
           | (None, s') => (None, s')
           end.

Declare Scope gw_scope.
Delimit Scope gw_scope with gw.
Notation "x <- m ;; k" := (bind m (fun x => k))
  (at level 61, m at next level, right associativity) : gw_scope.
Notation "m ;; k" := (bind m (fun _ => k))
  (at level 61, right associativity) : gw_scope.
Local Open Scope gw_scope.

(** The state in which a run ends: the one it returns with, or the one
    in which it leaves defined behaviour, which the last entry of
    [calls] then tells. *)
Definition exec {A : Type} (m : M A) (s : gw_state) : gw_state :=
  snd (m s).

Definition get_mode : M g_device_mode_t :=
  fun s => (Some (g_device_mode s), s).

Definition set_mode (m : g_device_mode_t) : M unit :=
  fun s => (Some tt,
            mk_gw m (g_ble_addr_type s) (wl s) (temp_data s) (calls s)).

Definition get_addr_type : M Z :=
  fun s => (Some (g_ble_addr_type s), s).

Definition get_temp_data : M spec_float :=
  fun s => (Some (temp_data s), s).

Definition set_temp_data (t : spec_float) : M unit :=
  fun s => (Some tt,
            mk_gw (g_device_mode s) (g_ble_addr_type s) (wl s)
                  (push_temp_data t (temp_data s)) (calls s)).

(** A query of the white list. *)
Definition wl_get {A : Type} (q : wl_state -> A) : M A :=
  fun s => (Some (q (wl s)), s).

(** An operation that may change the white list. *)
Definition wl_do (op : wl_state -> esp_err_t * wl_state) : M esp_err_t :=
  fun s => let (r, w) := op (wl s) in
           (Some r, mk_gw (g_device_mode s) (g_ble_addr_type s) w
                          (temp_data s) (calls s)).

(** Issue a call to a collaborator. *)
Definition issue (c : call) : M unit :=
  fun s => (Some tt,
            mk_gw (g_device_mode s) (g_ble_addr_type s) (wl s)
                  (temp_data s)
                  (calls s ++ [mk_issued c (wl s)])).

(** The run leaves defined behaviour. *)
Definition undefined {A : Type} (why : undefined_t) : M A :=
  fun s => (None,
            mk_gw (g_device_mode s) (g_ble_addr_type s) (wl s)
                  (temp_data s)
                  (calls s ++ [mk_issued (undefined_behaviour why) (wl s)])).

Definition when (b : bool) (m : M unit) : M unit :=
  if b then m else ret tt.

(** [a[i]]: a read outside the array is not defined. *)
Definition read {A : Type} (a : list A) (i : Z) : M A :=
  if i <? 0 then undefined read_out_of_bounds
  else match nth_error a (Z.to_nat i) with
       | Some x => ret x
       | None => undefined read_out_of_bounds
       end.

(** [ble_addr_t *wl_addrs; get_addr_white_list (&wl_addrs);] gives the
    pointer as it is after the call: [None] when it was never assigned,
    otherwise the entries of the block it points to. *)
Definition wl_export : M (option (list ble_addr_t)) :=
  r <- wl_get get_addr_white_list ;;
  match r with
  | export_fail => ret None
  | export_ok _ block => ret (Some block)
  | export_overflow _ _ _ => undefined heap_overflow
  end.

(** [free (wl_addrs)]: defined for a pointer that [malloc] gave. *)
Definition free (ptr : option (list ble_addr_t)) : M unit :=
  match ptr with
  | Some _ => ret tt
  | None => undefined free_unassigned
  end.

(** Conversion of an [int] to [int8_t]. *)
Definition to_int8 (z : Z) : Z := (z + 128) mod 256 - 128.

Section Handlers.
Context {hdr : app_packet_h}.

(** The search loop of [connect_if_interesting]: the index, as stored
    in the [int8_t], of the first advertised uuid the white list is
    interested in, from index [i] on; [-1] when there is none. *)
Fixpoint interesting_index (uuids : list ble_uuid16_t) (i : Z)
         (w : wl_state) : Z :=
  match uuids with
  | [] => -1
  | u :: rest =>
      if uuid_is_interesting u w then to_int8 i
      else interesting_index rest (i + 1) w
  end.

Definition connect_if_interesting (fields : ble_hs_adv_fields)
           (disc_desc : ble_gap_disc_desc) : M unit :=
  if rssi disc_desc <? RSSI_ACCEPTABLE_LVL then ret tt
  else
    uuid_in_inter_index <-
      wl_get (interesting_index (uuids16 fields) 0) ;;
    contains <- wl_get (white_list_contains_addr (addr disc_desc)) ;;
    empty <- wl_get white_list_is_empty ;;
    if negb (uuid_in_inter_index =? -1) && (negb contains || empty)
    then
      match open_packet (mfg_data fields) (mfg_data_len fields) with
      | None => ret tt
      | Some (header, _) =>
          if header =? REG_HEADER then
            issue ble_gap_disc_cancel ;;
            uuid <- read (uuids16 fields) uuid_in_inter_index ;;
            wl_do (push_to_white_list uuid (addr disc_desc)) ;;
            own <- get_addr_type ;;
            issue (ble_gap_connect own (addr disc_desc) BLE_HS_FOREVER)
          else ret tt
      end
    else ret tt.

Definition delete_if_reachable (fields : ble_hs_adv_fields)
           (disc_desc : ble_gap_disc_desc) : M unit :=
  if rssi disc_desc <? RSSI_ACCEPTABLE_LVL then ret tt
  else
    contains <- wl_get (white_list_contains_addr (addr disc_desc)) ;;
    if negb contains then ret tt
    else
      match open_packet (mfg_data fields) (mfg_data_len fields) with
      | None => ret tt
      | Some (header, _) =>
          if header =? DEL_HEADER then
            issue ble_gap_disc_cancel ;;
            own <- get_addr_type ;;
            issue (ble_gap_connect own (addr disc_desc) BLE_HS_FOREVER)
          else ret tt
      end.

(** [ble_gap_event].  Of the handlers the logging is left out: the
    [ESP_LOG] macros, which are not among the sources, and the calls of
    [get_mac_str], whose text only they use (what [get_mac_str] writes
    is the subject of [MacStr]). *)
Definition ble_gap_event (event : ble_gap_event_t) : M unit :=
  match event with
  | BLE_GAP_EVENT_DISC fields disc_desc =>
      mode <- get_mode ;;
      if mode_eqb mode REGISTRATION_MODE
      then connect_if_interesting fields disc_desc
      else if mode_eqb mode DELETION_MODE
      then delete_if_reachable fields disc_desc
      else
        (* [uint8_t buffer[fields.mfg_data_len - HEADER_SIZE];] C
           defines an array of variable length only for a size
           greater than zero *)
        if mfg_data_len fields - HEADER_SIZE <=? 0
        then undefined array_size_not_positive
        else
          match open_packet (mfg_data fields) (mfg_data_len fields) with
          | None => ret tt
          | Some (header, buffer) =>
              if header =? DATA_HEADER then
                temp_msb <- read buffer 0 ;;
                temp_lsb <- read buffer 1 ;;
                set_temp_data (convert_temp_data_to_float temp_msb temp_lsb)
              else ret tt
          end
  | BLE_GAP_EVENT_CONNECT status conn_handle conn_desc conn =>
      let peer_id_addr := ble_gap_conn_find conn conn_desc in
      if status =? 0 then
        mode <- get_mode ;;
        (if mode_eqb mode REGISTRATION_MODE
         then issue (led_start_blink 100 100)
         else
           contains <- wl_get (white_list_contains_addr peer_id_addr) ;;
           if mode_eqb mode DELETION_MODE && contains then
             r <- wl_do (remove_from_white_list_by_addr peer_id_addr) ;;
             match r with
             | ESP_OK => issue (led_start_blink 700 700)
             | ESP_FAIL => ret tt
             end
           else ret tt) ;;
        issue (ble_gap_terminate conn_handle BLE_ERR_REM_USER_CONN_TERM)
      else
        wl_do (remove_from_white_list_by_addr peer_id_addr) ;;
        ret tt
  | BLE_GAP_EVENT_DISCONNECT _ => ret tt
  | BLE_GAP_EVENT_DISC_COMPLETE =>
      (* the classification is only logged *)
      data <- get_temp_data ;;
      let state := start_analysis data in
      issue led_turn_off ;;
      issue esp_deep_sleep_start
  | BLE_GAP_EVENT_OTHER => ret tt
  end.

Definition on_medium_button_press : M unit :=
  mode <- get_mode ;;
  if negb (mode_eqb mode REGISTRATION_MODE)
     && negb (mode_eqb mode DELETION_MODE)
  then
    set_mode REGISTRATION_MODE ;;
    issue led_turn_on ;;
    let disc_params := mk_disc_params 0x0040 0x0020 0 0 1 0 in
    own <- get_addr_type ;;
    issue (ble_gap_disc own BLE_HS_FOREVER disc_params)
  else if mode_eqb mode REGISTRATION_MODE then
    empty <- wl_get white_list_is_empty ;;
    when (negb empty)
         (issue (esp_sleep_enable_timer_wakeup DEEP_SLEEP_CYCLE_TIME)) ;;
    issue led_turn_off ;;
    set_mode UNSPECIFIED_MODE ;;
    issue esp_deep_sleep_start
  else ret tt.

Definition on_long_button_press : M unit :=
  mode <- get_mode ;;
  empty <- wl_get white_list_is_empty ;;
  if negb (mode_eqb mode DELETION_MODE)
     && negb (mode_eqb mode REGISTRATION_MODE)
     && negb empty
  then
    set_mode DELETION_MODE ;;
    issue led_turn_on ;;
    let disc_params := mk_disc_params 0 0 1 0 1 0 in
    wl_addrs <- wl_export ;;
    len <- wl_get white_list_len ;;
    issue (ble_gap_wl_set wl_addrs len) ;;
    free wl_addrs ;;
    own <- get_addr_type ;;
    issue (ble_gap_disc own BLE_HS_FOREVER disc_params)
  else if mode_eqb mode DELETION_MODE then
    empty <- wl_get white_list_is_empty ;;
    when (negb empty)
         (issue (esp_sleep_enable_timer_wakeup DEEP_SLEEP_CYCLE_TIME)) ;;
    issue led_turn_off ;;
    set_mode UNSPECIFIED_MODE ;;
    issue esp_deep_sleep_start
  else ret tt.

Definition on_short_button_press : M unit := ret tt.

End Handlers.

End Gateway.

(* ================================================================= *)
(** * Reference values for the telemetry decoder and classifier *)
(* ================================================================= *)

Module Reading.
Import IEEE Analysis.

(** The weight of the fraction bits: bit [i], counted from the most
    significant bit of [lsb], weighs [1 / 2^(i+k)]. *)
Definition fraction_sum (k : Z) (lsb : Z) : Q :=
  fold_right
    (fun i acc =>
       ((if Z.testbit lsb (7 - i) then 1 / inject_Z (2 ^ (i + k)) else 0)
        + acc)%Q)
    0%Q [0; 1; 2; 3; 4; 5; 6; 7].

Definition decode_value (k : Z) (msb lsb : Z) : Q :=
  ((if Z.testbit msb 7 then - (1) else 1)
   * (inject_Z (Z.land msb 127) + fraction_sum k lsb))%Q.

(** The decode as the specification words it: bit [i] weighs
    [1 / 2^(i+2)]. *)
Definition spec_decode_value : Z -> Z -> Q := decode_value 2.

(** The decode with bit [i] weighing [1 / 2^(i+1)]. *)
Definition fixed_point_value : Z -> Z -> Q := decode_value 1.

Definition all_bytes : list Z := map Z.of_nat (seq 0 256).

Definition decode_agrees (msb lsb : Z) : bool :=
  let r := convert_temp_data_to_float msb lsb in
  is_finite r
  && Qeq_bool (F2Q r) (fixed_point_value msb lsb)
  && Bool.eqb (sign_bit r) (Z.testbit msb 7).

(** The buckets of the classification, on an exact ratio. *)
Definition bucket (ratio : Q) : liferate_t :=
  if Qle_bool 0 ratio && negb (Qle_bool (3 # 10) ratio) then NORMAL
  else if Qle_bool (3 # 10) ratio && negb (Qle_bool (7 # 10) ratio)
  then CRITICAL
  else if Qle_bool (7 # 10) ratio && Qle_bool ratio 1 then VERY_CRITICAL
  else UNDEFINED.

End Reading.

(* ================================================================= *)
(** * The invariant of the white list *)
(* ================================================================= *)

Module Registry.
Import WhiteList.

(** The number of occupied slots. *)
Definition count_occupied (wl : list device_data_t) : Z :=
  Z.of_nat (length (filter (fun d => negb (addr_is_empty d)) wl)).

(** Slot [d] is occupied and holds address [a]. *)
Definition holds_addr (a : ble_addr_t) (d : device_data_t) : bool :=
  negb (addr_is_empty d) && addrs_are_equal (device_addr d) a.

(** The addresses of the occupied slots, in slot order. *)
Definition occupied_addrs (wl : list device_data_t) : list ble_addr_t :=
  map device_addr (filter (fun d => negb (addr_is_empty d)) wl).

(** No occupied slot's address is held by a later occupied slot. *)
Fixpoint addrs_unique (wl : list device_data_t) : Prop :=
  match wl with
  | [] => True
  | d :: rest =>
      (addr_is_empty d = false ->
       existsb (holds_addr (device_addr d)) rest = false)
      /\ addrs_unique rest
  end.

(** The table has [white_list_size] slots; while initialised the length
    counts the occupied slots; occupied slots hold distinct addresses;
    the slots' uuids are distinct. *)
Definition wl_inv (s : wl_state) : Prop :=
  Z.of_nat (length (white_list s)) = white_list_size
  /\ (wl_is_initialised s = true ->
      white_list_len s = count_occupied (white_list s))
  /\ addrs_unique (white_list s)
  /\ NoDup (map device_uuid (white_list s)).

(** The condition under which [connect_if_interesting] inserts. *)
Definition insert_gate (addr : ble_addr_t) (s : wl_state) : Prop :=
  white_list_contains_addr addr s = false
  \/ white_list_is_empty s = true.

(** What of the white list says which slots are taken: the flag, the
    length and, slot by slot, the uuid and the occupancy flag. *)
Definition occupancy (s : wl_state)
  : bool * Z * list (ble_uuid16_t * bool) :=
  (wl_is_initialised s, white_list_len s,
   map (fun d => (device_uuid d, addr_is_empty d)) (white_list s)).

(** A sample white list: initialised, the pulse-oximeter slot taken. *)
Definition sample_addr : ble_addr_t := mk_addr 1 [1; 2; 3; 4; 5; 6].
Definition other_addr : ble_addr_t := mk_addr 0 [9; 9; 9; 9; 9; 9].

Definition wl_ready : wl_state := snd (init_white_list wl_boot).

Definition wl_sample : wl_state :=
  snd (push_to_white_list (BLE_UUID16_INIT 0x1822) sample_addr wl_ready).

End Registry.

(* ================================================================= *)
(** * Sample inputs *)
(* ================================================================= *)

Module Samples.
Import IEEE WhiteList Registry AppPacket Gateway.

Definition sample_headers : app_packet_h :=
  {| DATA_HEADER := 1; REG_HEADER := 2; DEL_HEADER := 3 |}.

(** Idle with nothing registered, registering with nothing registered,
    and idle, registering and deleting with the pulse oximeter
    registered. *)
Definition gw_idle_empty : gw_state :=
  mk_gw UNSPECIFIED_MODE 0 wl_ready (S754_zero false) [].
Definition gw_registering_empty : gw_state :=
  mk_gw REGISTRATION_MODE 0 wl_ready (S754_zero false) [].
Definition gw_idle : gw_state :=
  mk_gw UNSPECIFIED_MODE 0 wl_sample (S754_zero false) [].
Definition gw_registering : gw_state :=
  mk_gw REGISTRATION_MODE 0 wl_sample (S754_zero false) [].
Definition gw_deleting : gw_state :=
  mk_gw DELETION_MODE 0 wl_sample (S754_zero false) [].

(** An enroll offer of a pulse oximeter, heard at -40 dBm. *)
Definition enroll_fields : ble_hs_adv_fields :=
  mk_fields [BLE_UUID16_INIT 0x1822] [0; 2] 2.
Definition enroll_desc : ble_gap_disc_desc :=
  mk_disc_desc sample_addr (-40).

End Samples.

(* ================================================================= *)
(** * main.c: printing an address *)
(* ================================================================= *)

Module MacStr.

Definition MAC_STR_SIZE : Z := 3 * 6.

(** The character code of an upper-case hexadecimal digit. *)
Definition hex_upper (n : Z) : Z := if n <? 10 then 48 + n else 55 + n.

(** What [sprintf (dst, "%02X:", b)] writes at [dst] for a [uint8_t]
    [b]: two digits, the colon and the terminating NUL. *)
Definition sprintf_02X_colon (b : Z) : list Z :=
  [hex_upper (b / 16); hex_upper (b mod 16); 58; 0].

(** Memory from the start of the character array on, as bytes.  A write
    at an index the list does not have is beyond what is modelled and
    is dropped. *)
Fixpoint store (mem : list Z) (i : nat) (v : Z) : list Z :=
  match mem, i with
  | [], _ => []
  | _ :: rest, O => v :: rest
  | x :: rest, S i' => x :: store rest i' v
  end.

Fixpoint store_bytes (mem : list Z) (off : nat) (bytes : list Z)
  : list Z :=
  match bytes with
  | [] => mem
  | b :: rest => store_bytes (store mem off b) (S off) rest
  end.

(** The [for] loop of [get_mac_str], run for [n] more iterations from
    index [i]. *)
Fixpoint mac_loop (n : nat) (i : Z) (addr : list Z) (mem : list Z)
  : list Z :=
  match n with
  | O => mem
  | S n' =>
      mac_loop n' (i + 1) addr
               (store_bytes mem (Z.to_nat (i * 3))
                            (sprintf_02X_colon
                               (nth (Z.to_nat (5 - i)) addr 0)))
  end.

Definition get_mac_str (addr : list Z) (mem : list Z) : list Z :=
  store (mac_loop 6 0 addr mem) (Z.to_nat (MAC_STR_SIZE - 1)) 0.

(** The two digits of a byte. *)
Definition hex_pair (b : Z) : list Z :=
  [hex_upper (b / 16); hex_upper (b mod 16)].

(** The seventeen characters [XX:XX:XX:XX:XX:XX] for the six bytes, last
    byte first. *)
Definition mac_text (addr : list Z) : list Z :=
  hex_pair (nth 5 addr 0) ++ [58]
  ++ hex_pair (nth 4 addr 0) ++ [58]
  ++ hex_pair (nth 3 addr 0) ++ [58]
  ++ hex_pair (nth 2 addr 0) ++ [58]
  ++ hex_pair (nth 1 addr 0) ++ [58]
  ++ hex_pair (nth 0 addr 0).

End MacStr.

(* ================================================================= *)
(** * main.c: app_main *)
(* ================================================================= *)

Module Boot.
Import IEEE WhiteList Gateway.

Definition GPIO_LED : Z := 8.
Definition GPIO_BUTTON : Z := 3.

Inductive esp_sleep_wakeup_cause_t : Type :=
| ESP_SLEEP_WAKEUP_GPIO
| ESP_SLEEP_WAKEUP_TIMER
| ESP_SLEEP_WAKEUP_OTHER.

(** The calls only [app_main] makes.  [init_ble] is the function of
    [main.c] that brings up the NimBLE host. *)
Inductive boot_call : Type :=
| led_init (gpio : Z)
| button_init (gpio short_ms medium_ms long_ms : Z)
| nvs_flash_init
| init_ble
| force_interupt.

(** The globals as a wake from deep sleep finds them: ordinary memory
    holds its initial values, RTC memory (the table and the sample) what
    it held before the sleep. *)
Definition after_sleep (own_addr_type : Z)
           (rtc_white_list : list device_data_t)
           (rtc_temp_data : spec_float) : gw_state :=
  mk_gw UNSPECIFIED_MODE own_addr_type (mk_wl false 0 rtc_white_list)
        rtc_temp_data [].

Local Open Scope gw_scope.

(** The part of [app_main] after [init_ble], by wake-up cause. *)
Definition app_main_switch (wakeup_cause : esp_sleep_wakeup_cause_t)
  : M (list boot_call) :=
  match wakeup_cause with
  | ESP_SLEEP_WAKEUP_GPIO => ret [force_interupt]
  | ESP_SLEEP_WAKEUP_TIMER =>
      issue led_turn_on ;;
      let disc_params := mk_disc_params 0x0040 0x0020 1 0 1 0 in
      wl_addrs <- wl_export ;;
      len <- wl_get white_list_len ;;
      issue (ble_gap_wl_set wl_addrs len) ;;
      free wl_addrs ;;
      let scan_duration_ms := 1 * 1000 in
      own <- get_addr_type ;;
      issue (ble_gap_disc own scan_duration_ms disc_params) ;;
      empty <- wl_get white_list_is_empty ;;
      when (negb empty)
           (issue (esp_sleep_enable_timer_wakeup DEEP_SLEEP_CYCLE_TIME)) ;;
      ret []
  | ESP_SLEEP_WAKEUP_OTHER =>
      issue esp_deep_sleep_start ;;
      ret []
  end.

(** [app_main]: the value of a run that returns are the calls of the
    start-up, which all precede the calls logged in the state except for
    [force_interupt], issued when nothing is logged. *)
Definition app_main (wakeup_cause : esp_sleep_wakeup_cause_t)
  : M (list boot_call) :=
  wl_do init_white_list ;;
  tail <- app_main_switch wakeup_cause ;;
  ret ([led_init GPIO_LED;
        button_init GPIO_BUTTON 1000 5000 10000;
        nvs_flash_init;
        init_ble] ++ tail).

End Boot.

(* ================================================================= *)
(** * Reference values for decoded telemetry *)
(* ================================================================= *)

Module Telemetry.
Import IEEE Analysis Reading.

(** The magnitude of a reading in units of 1/256 degree. *)
Definition magnitude_256 (msb lsb : Z) : Z := 256 * (msb mod 128) + lsb.

(** The reading in units of 1/256 degree, with its sign. *)
Definition signed_256 (msb lsb : Z) : Z :=
  if msb <? 128 then magnitude_256 msb lsb else - magnitude_256 msb lsb.

(** The classification of a reading, from its bytes: 35, 36 and 38
    degrees are 8960, 9216 and 9728 units. *)
Definition class_of_bytes (msb lsb : Z) : liferate_t :=
  if (128 <=? msb) || (magnitude_256 msb lsb <=? 8960) then VERY_CRITICAL
  else if magnitude_256 msb lsb <=? 9216 then CRITICAL
  else if magnitude_256 msb lsb <=? 9728 then NORMAL
  else CRITICAL.

Definition value_agrees (msb lsb : Z) : bool :=
  Qeq_bool (fixed_point_value msb lsb) (signed_256 msb lsb # 256).

Definition reading_agrees (msb lsb : Z) : bool :=
  let r := convert_temp_data_to_float msb lsb in
  valid_binary prec32 emax32 r
  && match start_analysis r, class_of_bytes msb lsb with
     | UNDEFINED, UNDEFINED | NORMAL, NORMAL
     | CRITICAL, CRITICAL | VERY_CRITICAL, VERY_CRITICAL => true
     | _, _ => false
     end.

End Telemetry.

(* ================================================================= *)
(** * Runs of calls *)
(* ================================================================= *)

Module Trace.
Import WhiteList Gateway.

(** The calls [cs], each issued with the white list [w] in place. *)
Definition issued_with (w : wl_state) (cs : list call) : list issued :=
  map (fun c => mk_issued c w) cs.

End Trace.

(* ================================================================= *)
(** * Floating point: promotion is exact, comparison follows the value *)
(* ================================================================= *)

Module IEEEFacts.
Import IEEE.

Lemma digits2_pos_bounds (m : positive) :
  2 ^ (Zpos (digits2_pos m) - 1) <= Zpos m < 2 ^ Zpos (digits2_pos m).
Proof.
  induction m as [p IH | p IH |]; cbn [digits2_pos].
  - rewrite Pos2Z.inj_succ.
    replace (Z.succ (Zpos (digits2_pos p)) - 1)
      with (Zpos (digits2_pos p) - 1 + 1) by lia.
    rewrite Z.pow_succ_r by lia.
    rewrite Z.pow_add_r by lia.
    change (2 ^ 1) with 2. lia.
  - rewrite Pos2Z.inj_succ.
    replace (Z.succ (Zpos (digits2_pos p)) - 1)
      with (Zpos (digits2_pos p) - 1 + 1) by lia.
    rewrite Z.pow_succ_r by lia.
    rewrite Z.pow_add_r by lia.
    change (2 ^ 1) with 2. lia.
  - cbn. lia.
Qed.

Lemma iter_xO_value (k m : positive) :
  Zpos (Pos.iter xO m k) = Zpos m * 2 ^ Zpos k.
Proof.
  induction k as [|k IH] using Pos.peano_ind.
  - cbn. lia.
  - rewrite Pos.iter_succ, Pos2Z.inj_succ, Z.pow_succ_r by lia.
    rewrite Pos2Z.inj_xO, IH. lia.
Qed.

Lemma iter_xO_digits (k m : positive) :
  Zpos (digits2_pos (Pos.iter xO m k)) = Zpos (digits2_pos m) + Zpos k.
Proof.
  induction k as [|k IH] using Pos.peano_ind.
  - cbn. lia.
  - rewrite Pos.iter_succ. cbn [digits2_pos].
    rewrite !Pos2Z.inj_succ, IH. lia.
Qed.

Section Format.
Variables prec emax : Z.
Hypothesis prec_pos : 0 < prec.

Local Abbreviation emin := (SpecFloat.emin prec emax).

Lemma canonical_inv m e :
  canonical_mantissa prec emax m e = true ->
  emin <= e /\ Zpos (digits2_pos m) <= prec /\
  (e = emin \/ Zpos (digits2_pos m) = prec).
Proof.
  unfold canonical_mantissa, fexp.
  intros H. apply Z.eqb_eq in H. lia.
Qed.

(** A canonical finite number rounds to itself. *)
Lemma binary_round_aux_canonical s m e :
  bounded prec emax m e = true ->
  binary_round_aux prec emax s (Zpos m) e loc_Exact = S754_finite s m e.
Proof.
  unfold bounded. intros H. apply andb_true_iff in H as [Hc He].
  unfold binary_round_aux, shr_fexp.
  cbn [Zdigits2].
  unfold canonical_mantissa in Hc. apply Z.eqb_eq in Hc.
  rewrite Hc, Z.sub_diag.
  cbn [shr shr_record_of_loc shr_m loc_of_shr_record round_nearest_even
       Zdigits2].
  rewrite Hc, Z.sub_diag. cbn [shr shr_record_of_loc shr_m].
  rewrite He. reflexivity.
Qed.

(** Rounding a number that has room to spare only realigns it. *)
Lemma binary_round_exact s m e e' :
  e' = fexp prec emax (Zpos (digits2_pos m) + e) ->
  e' <= e -> e' <= emax - prec ->
  exists m', binary_round prec emax s m e = S754_finite s m' e'
             /\ Zpos m' = Zpos m * 2 ^ (e - e')
             /\ bounded prec emax m' e' = true.
Proof.
  intros He' Hle Hmax. unfold binary_round. rewrite <- He'.
  unfold shl_align.
  destruct (e' - e) as [|k|k] eqn:Hk; try lia.
  - assert (e = e') by lia. subst e.
    exists m. rewrite Z.sub_diag, Z.pow_0_r, Z.mul_1_r.
    assert (Hb : bounded prec emax m e' = true).
    { unfold bounded, canonical_mantissa. rewrite <- He'.
      rewrite Z.eqb_refl. apply Z.leb_le. exact Hmax. }
    rewrite (binary_round_aux_canonical s m e' Hb). auto.
  - exists (Pos.iter xO m k).
    assert (Hb : bounded prec emax (Pos.iter xO m k) e' = true).
    { unfold bounded, canonical_mantissa.
      rewrite iter_xO_digits.
      replace (Zpos (digits2_pos m) + Zpos k + e')
        with (Zpos (digits2_pos m) + e) by lia.
      rewrite <- He'. rewrite Z.eqb_refl. apply Z.leb_le. exact Hmax. }
    rewrite (binary_round_aux_canonical s _ e' Hb).
    rewrite iter_xO_value. replace (e - e') with (Zpos k) by lia. auto.
Qed.

Local Abbreviation scaled := (IEEE.scaled prec emax).

Lemma scaled_mantissa_pos m e :
  emin <= e -> 0 < Zpos m * 2 ^ (e - emin).
Proof.
  intros H. assert (0 < 2 ^ (e - emin)) by (apply Z.pow_pos_nonneg; lia).
  lia.
Qed.

Lemma canonical_exponent_lt m1 e1 m2 e2 :
  canonical_mantissa prec emax m1 e1 = true ->
  canonical_mantissa prec emax m2 e2 = true ->
  e1 < e2 ->
  Zpos m1 * 2 ^ (e1 - emin) < Zpos m2 * 2 ^ (e2 - emin).
Proof.
  intros H1 H2 Hlt.
  apply canonical_inv in H1 as (Hm1 & Hd1 & _).
  apply canonical_inv in H2 as (Hm2 & _ & [He2 | Hd2]); [lia|].
  pose proof (digits2_pos_bounds m1) as [_ Hu1].
  pose proof (digits2_pos_bounds m2) as [Hl2 _].
  rewrite Hd2 in Hl2.
  assert (Hp1 : 2 ^ Zpos (digits2_pos m1) <= 2 ^ prec)
    by (apply Z.pow_le_mono_r; lia).
  assert (Hk : 2 ^ (e1 - emin + 1) <= 2 ^ (e2 - emin))
    by (apply Z.pow_le_mono_r; lia).
  rewrite Z.pow_add_r in Hk by lia. change (2 ^ 1) with 2 in Hk.
  assert (Hpp : 2 ^ prec = 2 * 2 ^ (prec - 1)).
  { replace prec with (prec - 1 + 1) at 1 by lia.
    rewrite Z.pow_add_r by lia. change (2 ^ 1) with 2. lia. }
  assert (0 < 2 ^ (e1 - emin)) by (apply Z.pow_pos_nonneg; lia).
  assert (0 < 2 ^ (prec - 1)) by (apply Z.pow_pos_nonneg; lia).
  nia.
Qed.

Lemma canonical_compare m1 e1 m2 e2 :
  canonical_mantissa prec emax m1 e1 = true ->
  canonical_mantissa prec emax m2 e2 = true ->
  match e1 ?= e2 with
  | Lt => Lt
  | Gt => Gt
  | Eq => Pos.compare_cont Eq m1 m2
  end = (Zpos m1 * 2 ^ (e1 - emin) ?= Zpos m2 * 2 ^ (e2 - emin)).
Proof.
  intros H1 H2.
  destruct (Z.compare_spec e1 e2) as [Heq | Hlt | Hgt].
  - subst e2. apply canonical_inv in H1 as (Hm1 & _).
    rewrite <- Zmult_compare_compat_r
      by (apply Z.lt_gt, Z.pow_pos_nonneg; lia).
    reflexivity.
  - symmetry. apply Z.compare_lt_iff.
    now apply canonical_exponent_lt.
  - symmetry. apply Z.compare_gt_iff.
    now apply canonical_exponent_lt.
Qed.

(** [SFcompare] orders valid finite numbers by their value. *)
Lemma SFcompare_scaled x y :
  valid_binary prec emax x = true -> valid_binary prec emax y = true ->
  is_finite x = true -> is_finite y = true ->
  SFcompare x y = Some (scaled x ?= scaled y).
Proof.
  intros Vx Vy Fx Fy.
  destruct x as [sx | sx | | sx mx ex]; try discriminate Fx;
    destruct y as [sy | sy | | sy my ey]; try discriminate Fy;
    cbn [SFcompare IEEE.scaled valid_binary] in *.
  - reflexivity.
  - unfold bounded in Vy. apply andb_true_iff in Vy as [Cy _].
    apply canonical_inv in Cy as (Hy & _).
    pose proof (scaled_mantissa_pos my ey Hy).
    destruct sy; cbn [cond_Zopp]; f_equal; symmetry;
      [apply Z.compare_gt_iff | apply Z.compare_lt_iff]; lia.
  - unfold bounded in Vx. apply andb_true_iff in Vx as [Cx _].
    apply canonical_inv in Cx as (Hx & _).
    pose proof (scaled_mantissa_pos mx ex Hx).
    destruct sx; cbn [cond_Zopp]; f_equal; symmetry;
      [apply Z.compare_lt_iff | apply Z.compare_gt_iff]; lia.
  - unfold bounded in Vx, Vy.
    apply andb_true_iff in Vx as [Cx _].
    apply andb_true_iff in Vy as [Cy _].
    pose proof (canonical_compare mx ex my ey Cx Cy) as Hc.
    pose proof (canonical_inv _ _ Cx) as (Hx & _).
    pose proof (canonical_inv _ _ Cy) as (Hy & _).
    pose proof (scaled_mantissa_pos mx ex Hx).
    pose proof (scaled_mantissa_pos my ey Hy).
    destruct sx, sy; cbn [cond_Zopp]; f_equal.
    + rewrite Z.compare_opp.
      rewrite (Z.compare_antisym (Zpos mx * 2 ^ (ex - emin))).
      rewrite <- Hc.
      destruct (ex ?= ey); reflexivity.
    + symmetry. apply Z.compare_lt_iff. lia.
    + symmetry. apply Z.compare_gt_iff. lia.
    + exact Hc.
Qed.

(** The value of a valid finite number, scaled to an integer. *)
Lemma F2Q_scaled x :
  valid_binary prec emax x = true ->
  (F2Q x * 2 ^ (- emin) == inject_Z (scaled x))%Q.
Proof.
  intros Vx.
  destruct x as [sx | sx | | sx mx ex]; cbn [F2Q IEEE.scaled];
    try (rewrite Qmult_0_l; reflexivity).
  cbn [valid_binary] in Vx. unfold bounded in Vx.
  apply andb_true_iff in Vx as [Cx _].
  apply canonical_inv in Cx as (Hx & _).
  rewrite <- Qmult_assoc.
  rewrite <- Qpower_plus by discriminate.
  replace (ex + - emin) with (ex - emin) by lia.
  rewrite <- (Zpower_Qpower 2) by lia.
  rewrite <- inject_Z_mult.
  destruct sx; cbn [cond_Zopp].
  - rewrite Z.mul_opp_l. reflexivity.
  - reflexivity.
Qed.

Lemma Qle_bool_scaled x y :
  valid_binary prec emax x = true -> valid_binary prec emax y = true ->
  Qle_bool (F2Q x) (F2Q y) = (scaled x <=? scaled y).
Proof.
  intros Vx Vy.
  apply eq_true_iff_eq.
  rewrite Qle_bool_iff, Z.leb_le, Zle_Qle.
  rewrite <- (F2Q_scaled x Vx), <- (F2Q_scaled y Vy).
  symmetry. apply Qmult_le_r.
  apply Qpower_0_lt. reflexivity.
Qed.

Lemma SFleb_value x y :
  valid_binary prec emax x = true -> valid_binary prec emax y = true ->
  is_finite x = true -> is_finite y = true ->
  SFleb x y = Qle_bool (F2Q x) (F2Q y).
Proof.
  intros Vx Vy Fx Fy. unfold SFleb.
  rewrite (SFcompare_scaled x y Vx Vy Fx Fy), Qle_bool_scaled by assumption.
  unfold Z.leb. destruct (scaled x ?= scaled y); reflexivity.
Qed.

Lemma SFltb_value x y :
  valid_binary prec emax x = true -> valid_binary prec emax y = true ->
  is_finite x = true -> is_finite y = true ->
  SFltb x y = negb (Qle_bool (F2Q y) (F2Q x)).
Proof.
  intros Vx Vy Fx Fy. unfold SFltb.
  rewrite (SFcompare_scaled x y Vx Vy Fx Fy), Qle_bool_scaled by assumption.
  unfold Z.leb. rewrite (Z.compare_antisym (scaled x)).
  destruct (scaled x ?= scaled y); reflexivity.
Qed.

End Format.
End IEEEFacts.

(* ================================================================= *)
(** * The telemetry decoder and classifier *)
(* ================================================================= *)

Module AnalysisFacts.
Import IEEE Analysis Reading IEEEFacts.

(** Promotion of a [float] to [double] is exact. *)
Lemma double_of_float_exact t :
  valid_binary prec32 emax32 t = true ->
  is_finite t = true ->
  valid_binary prec64 emax64 (double_of_float t) = true
  /\ is_finite (double_of_float t) = true
  /\ (F2Q (double_of_float t) == F2Q t)%Q.
Proof.
  intros V F.
  destruct t as [s | s | | s m e]; try discriminate F;
    cbn [double_of_float valid_binary is_finite F2Q].
  - repeat split; reflexivity.
  - cbn [valid_binary] in V. unfold bounded in V.
    apply andb_true_iff in V as [C B].
    apply canonical_inv in C as (He & Hd & _).
    apply Z.leb_le in B.
    unfold emin, prec32, emax32 in *.
    pose proof (Pos2Z.is_pos (digits2_pos m)) as Hpos.
    destruct (binary_round_exact prec64 emax64 s m e
                (fexp prec64 emax64 (Zpos (digits2_pos m) + e)))
      as (m' & -> & Hm' & Hb');
      try reflexivity;
      try (unfold fexp, emin, prec64, emax64; lia).
    cbn [valid_binary is_finite F2Q].
    repeat split; try assumption.
    set (e' := fexp prec64 emax64 (Zpos (digits2_pos m) + e)) in *.
    assert (He' : e' <= e)
      by (unfold e', fexp, emin, prec64, emax64; lia).
    assert (Hs : cond_Zopp s (Zpos m') =
                 cond_Zopp s (Zpos m) * 2 ^ (e - e')).
    { destruct s; cbn [cond_Zopp]; rewrite Hm'; lia. }
    rewrite Hs, inject_Z_mult, (Zpower_Qpower 2) by lia.
    rewrite <- Qmult_assoc, <- Qpower_plus by discriminate.
    replace (e - e' + e') with e by lia. reflexivity.
Qed.

Section Compare.
Variables (t c : spec_float).
Hypothesis Vt : valid_binary prec32 emax32 t = true.
Hypothesis Ft : is_finite t = true.
Hypothesis Vc : valid_binary prec64 emax64 c = true.
Hypothesis Fc : is_finite c = true.

Lemma fle_promoted :
  fle (double_of_float t) c = Qle_bool (F2Q t) (F2Q c).
Proof.
  destruct (double_of_float_exact t Vt Ft) as (V & F & E).
  unfold fle.
  rewrite (SFleb_value prec64 emax64) by (assumption || reflexivity).
  rewrite E. reflexivity.
Qed.

Lemma fgt_promoted :
  fgt (double_of_float t) c = negb (Qle_bool (F2Q t) (F2Q c)).
Proof.
  destruct (double_of_float_exact t Vt Ft) as (V & F & E).
  unfold fgt.
  rewrite (SFltb_value prec64 emax64) by (assumption || reflexivity).
  rewrite E. reflexivity.
Qed.

Lemma fge_promoted :
  fge (double_of_float t) c = Qle_bool (F2Q c) (F2Q t).
Proof.
  destruct (double_of_float_exact t Vt Ft) as (V & F & E).
  unfold fge.
  rewrite (SFleb_value prec64 emax64) by (assumption || reflexivity).
  rewrite E. reflexivity.
Qed.

Lemma flt_promoted :
  flt (double_of_float t) c = negb (Qle_bool (F2Q c) (F2Q t)).
Proof.
  destruct (double_of_float_exact t Vt Ft) as (V & F & E).
  unfold flt.
  rewrite (SFltb_value prec64 emax64) by (assumption || reflexivity).
  rewrite E. reflexivity.
Qed.
End Compare.

Lemma double_of_int_value (n : Z) :
  In n [35; 36; 38; 39] ->
  valid_binary prec64 emax64 (double_of_int n) = true
  /\ is_finite (double_of_int n) = true
  /\ (F2Q (double_of_int n) == inject_Z n)%Q.
Proof.
  intros H. cbn [In] in H.
  destruct H as [<- | [<- | [<- | [<- | []]]]];
    repeat split; reflexivity.
Qed.

Lemma Qle_bool_mono (q a b : Q) :
  Qle_bool a b = true -> Qle_bool q a = true -> Qle_bool q b = true.
Proof.
  intros Hab H. apply Qle_bool_iff in H, Hab. apply Qle_bool_iff.
  now apply Qle_trans with a.
Qed.

Lemma Qle_bool_false_lt (q r : Q) :
  Qle_bool q r = false <-> (r < q)%Q.
Proof.
  split; intros H.
  - apply Qnot_le_lt. intros Hle. apply Qle_bool_iff in Hle. congruence.
  - destruct (Qle_bool q r) eqn:E; [| reflexivity].
    apply Qle_bool_iff in E. exfalso. exact (Qlt_not_le _ _ H E).
Qed.

Lemma fle_literal t n :
  valid_binary prec32 emax32 t = true -> is_finite t = true ->
  In n [35; 36; 38; 39] ->
  fle (double_of_float t) (double_of_int n) = Qle_bool (F2Q t) (inject_Z n).
Proof.
  intros V F H. destruct (double_of_int_value n H) as (Vn & Fn & En).
  rewrite fle_promoted by assumption. rewrite En. reflexivity.
Qed.

Lemma fgt_literal t n :
  valid_binary prec32 emax32 t = true -> is_finite t = true ->
  In n [35; 36; 38; 39] ->
  fgt (double_of_float t) (double_of_int n)
  = negb (Qle_bool (F2Q t) (inject_Z n)).
Proof.
  intros V F H. destruct (double_of_int_value n H) as (Vn & Fn & En).
  rewrite fgt_promoted by assumption. rewrite En. reflexivity.
Qed.

(** The score as a function of the exact rational temperature. *)
Lemma get_temp_score_value t :
  valid_binary prec32 emax32 t = true ->
  is_finite t = true ->
  get_temp_score t =
    if Qle_bool (F2Q t) 35 then 3
    else if Qle_bool (F2Q t) 36 then 1
    else if Qle_bool (F2Q t) 38 then 0
    else if Qle_bool (F2Q t) 39 then 1
    else 2.
Proof.
  intros V F. unfold get_temp_score. cbv zeta.
  rewrite !fgt_literal, !fle_literal by (assumption || (cbn; tauto)).
  change (inject_Z 35) with 35%Q. change (inject_Z 36) with 36%Q.
  change (inject_Z 38) with 38%Q. change (inject_Z 39) with 39%Q.
  pose proof (Qle_bool_mono (F2Q t) 35 36 eq_refl) as H1.
  pose proof (Qle_bool_mono (F2Q t) 36 38 eq_refl) as H2.
  pose proof (Qle_bool_mono (F2Q t) 38 39 eq_refl) as H3.
  destruct (Qle_bool (F2Q t) 35), (Qle_bool (F2Q t) 36),
    (Qle_bool (F2Q t) 38), (Qle_bool (F2Q t) 39);
    cbn; try reflexivity;
    try (specialize (H1 eq_refl); discriminate);
    try (specialize (H2 eq_refl); discriminate);
    try (specialize (H3 eq_refl); discriminate).
Qed.

(** C1 (as amended).  For every finite [float] temperature [t] the score
    is the one of the ordered partition: [t <= 35] gives 3,
    [35 < t <= 36] gives 1, [36 < t <= 38] gives 0, [38 < t <= 39]
    gives 1, [t > 39] gives 2, and the sentinel [-1] is never returned.
    At the sample points: 35.0 scores 3, 36.0 scores 1, 36.5 and 38.0
    score 0, 38.5 and 39.0 score 1, 40.0 scores 2. *)
Theorem get_temp_score_partition :
  (forall t : spec_float,
      valid_binary prec32 emax32 t = true ->
      is_finite t = true ->
      ((F2Q t <= 35)%Q -> get_temp_score t = 3)
      /\ ((35 < F2Q t)%Q /\ (F2Q t <= 36)%Q -> get_temp_score t = 1)
      /\ ((36 < F2Q t)%Q /\ (F2Q t <= 38)%Q -> get_temp_score t = 0)
      /\ ((38 < F2Q t)%Q /\ (F2Q t <= 39)%Q -> get_temp_score t = 1)
      /\ ((39 < F2Q t)%Q -> get_temp_score t = 2)
      /\ get_temp_score t <> -1)
  /\ get_temp_score (float_of_int 35) = 3
  /\ get_temp_score (float_of_int 36) = 1
  /\ get_temp_score float_36_5 = 0
  /\ get_temp_score (float_of_int 38) = 0
  /\ get_temp_score float_38_5 = 1
  /\ get_temp_score (float_of_int 39) = 1
  /\ get_temp_score (float_of_int 40) = 2.
Proof.
  split; [| repeat split; vm_compute; reflexivity].
  intros t V F. rewrite (get_temp_score_value t V F).
  repeat split.
  - intros H. apply Qle_bool_iff in H. rewrite H. reflexivity.
  - intros [H1 H2]. apply Qle_bool_false_lt in H1.
    apply Qle_bool_iff in H2. rewrite H1, H2. reflexivity.
  - intros [H1 H2]. apply Qle_bool_false_lt in H1.
    apply Qle_bool_iff in H2. rewrite H2.
    destruct (Qle_bool (F2Q t) 35) eqn:E35.
    + apply (Qle_bool_mono _ 35 36 eq_refl) in E35; congruence.
    + rewrite H1. reflexivity.
  - intros [H1 H2]. apply Qle_bool_false_lt in H1.
    apply Qle_bool_iff in H2. rewrite H2.
    destruct (Qle_bool (F2Q t) 35) eqn:E35.
    + apply (Qle_bool_mono _ 35 38 eq_refl) in E35; congruence.
    + destruct (Qle_bool (F2Q t) 36) eqn:E36.
      * apply (Qle_bool_mono _ 36 38 eq_refl) in E36; congruence.
      * rewrite H1. reflexivity.
  - intros H1. apply Qle_bool_false_lt in H1.
    destruct (Qle_bool (F2Q t) 35) eqn:E35.
    { apply (Qle_bool_mono _ 35 39 eq_refl) in E35; congruence. }
    destruct (Qle_bool (F2Q t) 36) eqn:E36.
    { apply (Qle_bool_mono _ 36 39 eq_refl) in E36; congruence. }
    destruct (Qle_bool (F2Q t) 38) eqn:E38.
    { apply (Qle_bool_mono _ 38 39 eq_refl) in E38; congruence. }
    rewrite H1. reflexivity.
  - destruct (Qle_bool (F2Q t) 35), (Qle_bool (F2Q t) 36),
      (Qle_bool (F2Q t) 38), (Qle_bool (F2Q t) 39); discriminate.
Qed.

Lemma get_temp_score_partition_witness :
  valid_binary prec32 emax32 float_36_5 = true
  /\ is_finite float_36_5 = true
  /\ ((36 < F2Q float_36_5)%Q /\ (F2Q float_36_5 <= 38)%Q)
  /\ get_temp_score float_36_5 <> -1.
Proof.
  split; [vm_compute; reflexivity |]. split; [reflexivity |].
  split.
  - split; [vm_compute; reflexivity |].
    apply Qle_bool_iff. vm_compute. reflexivity.
  - apply (proj1 get_temp_score_partition float_36_5);
      vm_compute; reflexivity.
Defined.

(** C1 as stated asks for [score(36.0) = 0]; the code scores 36.0 with
    1, the strict bound [temp > 36.0] leaving it to the second rule. *)
Lemma get_temp_score_36_not_0 :
  F2Q (float_of_int 36) == 36 /\ get_temp_score (float_of_int 36) <> 0.
Proof.
  split; [vm_compute; reflexivity | vm_compute; discriminate].
Qed.

Lemma all_bytes_In (b : Z) : 0 <= b < 256 -> In b all_bytes.
Proof.
  intros H. unfold all_bytes.
  rewrite <- (Z2Nat.id b) by lia.
  apply in_map, in_seq. lia.
Qed.

(** Every pair of bytes decodes to its fixed-point value: checked on
    all 65536 pairs. *)
Lemma decode_agrees_all :
  forallb (fun msb => forallb (decode_agrees msb) all_bytes) all_bytes
  = true.
Proof. vm_compute. reflexivity. Qed.

Lemma decode_agrees_true (msb lsb : Z) :
  decode_agrees msb lsb = true ->
  is_finite (convert_temp_data_to_float msb lsb) = true
  /\ (F2Q (convert_temp_data_to_float msb lsb)
      == fixed_point_value msb lsb)%Q
  /\ sign_bit (convert_temp_data_to_float msb lsb) = Z.testbit msb 7.
Proof.
  unfold decode_agrees.
  generalize (convert_temp_data_to_float msb lsb) as r.
  intros r H.
  apply andb_true_iff in H as [H Hs].
  apply andb_true_iff in H as [Hf Hq].
  split; [exact Hf |].
  split; [apply Qeq_bool_iff; exact Hq |].
  apply Bool.eqb_prop. exact Hs.
Qed.

Lemma decode_agrees_byte (msb lsb : Z) :
  0 <= msb < 256 -> 0 <= lsb < 256 -> decode_agrees msb lsb = true.
Proof.
  intros Hm Hl.
  pose proof decode_agrees_all as H.
  rewrite forallb_forall in H.
  specialize (H msb (all_bytes_In msb Hm)).
  rewrite forallb_forall in H.
  exact (H lsb (all_bytes_In lsb Hl)).
Qed.

(** C2 (as amended).  For every pair of bytes the decoded [float] is
    finite and is exactly sign * (integer + fraction): the integer is
    the low 7 bits of [msb], the sign is negative iff bit 7 of [msb] is
    set, and fraction bit [i], counted from the most significant bit of
    [lsb], contributes [1 / 2^(i+1)]. *)
Theorem convert_temp_data_to_float_value (msb lsb : Z) :
  0 <= msb < 256 -> 0 <= lsb < 256 ->
  is_finite (convert_temp_data_to_float msb lsb) = true
  /\ (F2Q (convert_temp_data_to_float msb lsb)
      == fixed_point_value msb lsb)%Q
  /\ sign_bit (convert_temp_data_to_float msb lsb) = Z.testbit msb 7.
Proof.
  intros Hm Hl.
  apply decode_agrees_true, decode_agrees_byte; assumption.
Qed.

Lemma convert_temp_data_to_float_value_witness :
  (F2Q (convert_temp_data_to_float 37 128) == 75 # 2)%Q.
Proof.
  destruct (convert_temp_data_to_float_value 37 128) as (_ & H & _);
    [lia | lia |].
  rewrite H. vm_compute. reflexivity.
Defined.

(** C2 as stated weighs fraction bit [i] with [1 / 2^(i+2)]; the code
    decodes the bytes [0x00, 0x80] to one half, the stated formula to
    one quarter. *)
Lemma convert_temp_data_to_float_not_spec :
  (F2Q (convert_temp_data_to_float 0 128) == 1 # 2)%Q
  /\ (spec_decode_value 0 128 == 1 # 4)%Q
  /\ ~ (F2Q (convert_temp_data_to_float 0 128)
        == spec_decode_value 0 128)%Q.
Proof.
  split; [vm_compute; reflexivity |].
  split; [vm_compute; reflexivity |].
  intros H. vm_compute in H. discriminate H.
Qed.

(** C7.  For every score [s] among -1, 0, 1, 2, 3 the classification is
    the bucket of the ratio [s / 3]: [[0, 0.3)] gives Normal,
    [[0.3, 0.7)] Critical, [[0.7, 1]] VeryCritical, anything else
    Undefined; so 0, 1, 2 and 3 give Normal, Critical, Critical and
    VeryCritical, and only -1 gives Undefined. *)
Theorem classify_score_bucket (s : Z) :
  -1 <= s <= 3 ->
  classify_score s = bucket (inject_Z s / 3)
  /\ (s = 0 -> classify_score s = NORMAL)
  /\ (s = 1 -> classify_score s = CRITICAL)
  /\ (s = 2 -> classify_score s = CRITICAL)
  /\ (s = 3 -> classify_score s = VERY_CRITICAL)
  /\ (classify_score s = UNDEFINED <-> s = -1).
Proof.
  intros H.
  assert (Hs : s = -1 \/ s = 0 \/ s = 1 \/ s = 2 \/ s = 3) by lia.
  destruct Hs as [-> | [-> | [-> | [-> | ->]]]];
    (split; [vm_compute; reflexivity |]);
    repeat split; intros; try lia;
    try (vm_compute; reflexivity);
    try (exfalso; vm_compute in *; discriminate).
Qed.

Lemma classify_score_bucket_witness :
  -1 <= 2 <= 3 /\ classify_score 2 = bucket (inject_Z 2 / 3).
Proof.
  split; [lia |].
  apply (proj1 (classify_score_bucket 2 ltac:(lia))).
Defined.

End AnalysisFacts.

(* ================================================================= *)
(** * The white list keeps its invariant *)
(* ================================================================= *)

Module WhiteListFacts.
Import WhiteList Registry.

Lemma uuids16_are_equal_eq (u v : ble_uuid16_t) :
  uuids16_are_equal u v = true <-> u = v.
Proof.
  unfold uuids16_are_equal. destruct u as [t1 v1], v as [t2 v2]; cbn.
  destruct (Z.eqb_spec t1 t2), (Z.eqb_spec v1 v2);
    split; intros H; try discriminate; try congruence.
Qed.

Lemma bytes_eqb_sym (l1 l2 : list Z) : bytes_eqb l1 l2 = bytes_eqb l2 l1.
Proof.
  revert l2. induction l1 as [| x l1 IH]; intros [| y l2]; cbn;
    try reflexivity.
  now rewrite Z.eqb_sym, IH.
Qed.

Lemma bytes_eqb_refl (l : list Z) : bytes_eqb l l = true.
Proof.
  induction l as [| x l IH]; cbn; [reflexivity |].
  now rewrite Z.eqb_refl, IH.
Qed.

Lemma addrs_are_equal_sym (a b : ble_addr_t) :
  addrs_are_equal a b = addrs_are_equal b a.
Proof.
  unfold addrs_are_equal.
  now rewrite Z.eqb_sym, bytes_eqb_sym.
Qed.

Lemma addrs_are_equal_refl (a : ble_addr_t) : addrs_are_equal a a = true.
Proof.
  unfold addrs_are_equal. now rewrite Z.eqb_refl, bytes_eqb_refl.
Qed.

(** ** Counting *)

Lemma count_occupied_cons d wl :
  count_occupied (d :: wl)
  = (if addr_is_empty d then 0 else 1) + count_occupied wl.
Proof.
  unfold count_occupied. cbn [filter].
  destruct (addr_is_empty d); cbn [negb length]; lia.
Qed.

Lemma count_occupied_range wl :
  0 <= count_occupied wl <= Z.of_nat (length wl).
Proof.
  induction wl as [| d wl IH]; [cbn; lia |].
  rewrite count_occupied_cons. cbn [length].
  destruct (addr_is_empty d); lia.
Qed.

Lemma count_loop_spec wl cnt :
  0 <= cnt -> cnt + count_occupied wl < 256 ->
  count_loop wl cnt = cnt + count_occupied wl.
Proof.
  revert cnt. induction wl as [| d wl IH]; intros cnt H0 H.
  - cbn. unfold count_occupied. cbn. lia.
  - cbn [count_loop]. rewrite count_occupied_cons in *.
    pose proof (count_occupied_range wl).
    destruct (addr_is_empty d).
    + rewrite IH; lia.
    + unfold u8. rewrite Z.mod_small by lia. rewrite IH; lia.
Qed.

Lemma count_zero_no_holder a wl :
  count_occupied wl = 0 -> existsb (holds_addr a) wl = false.
Proof.
  induction wl as [| d wl IH]; intros H; [reflexivity |].
  rewrite count_occupied_cons in H.
  pose proof (count_occupied_range wl).
  cbn [existsb]. unfold holds_addr at 1.
  destruct (addr_is_empty d); [| lia].
  cbn. apply IH. lia.
Qed.

(** ** The insertion loop *)

Lemma push_loop_None wl uuid addr :
  push_loop wl uuid addr = None <->
  existsb (fun d => addr_is_empty d
                    && uuids16_are_equal (device_uuid d) uuid) wl = false.
Proof.
  induction wl as [| d wl IH]; cbn; [tauto |].
  destruct (addr_is_empty d && uuids16_are_equal (device_uuid d) uuid);
    cbn.
  - split; discriminate.
  - destruct (push_loop wl uuid addr); cbn.
    + split; [discriminate |]. intros H. apply IH in H. discriminate.
    + split; [intros _; now apply IH | reflexivity].
Qed.

(** A successful insertion rewrites exactly one slot: the first empty
    one of the given uuid. *)
Lemma push_loop_Some wl uuid addr wl' :
  push_loop wl uuid addr = Some wl' ->
  exists pre d post,
    wl = pre ++ d :: post
    /\ wl' = pre ++ mk_device (device_uuid d) addr false :: post
    /\ addr_is_empty d = true
    /\ device_uuid d = uuid
    /\ forall x, In x pre ->
                 addr_is_empty x
                 && uuids16_are_equal (device_uuid x) uuid = false.
Proof.
  revert wl'. induction wl as [| d wl IH]; intros wl' H; [discriminate |].
  cbn in H.
  destruct (addr_is_empty d && uuids16_are_equal (device_uuid d) uuid)
           eqn:E.
  - injection H as <-. apply andb_true_iff in E as [E1 E2].
    apply uuids16_are_equal_eq in E2.
    exists [], d, wl. cbn. repeat split; auto. intros x [].
  - destruct (push_loop wl uuid addr) as [r |] eqn:P; [| discriminate].
    injection H as <-.
    destruct (IH r eq_refl) as (pre & d0 & post & -> & -> & H1 & H2 & H3).
    exists (d :: pre), d0, post. cbn. repeat split; auto.
    intros x [<- | Hx]; auto.
Qed.

Lemma count_occupied_app l1 l2 :
  count_occupied (l1 ++ l2) = count_occupied l1 + count_occupied l2.
Proof.
  unfold count_occupied. rewrite filter_app, length_app. lia.
Qed.

Lemma push_loop_count wl uuid addr wl' :
  push_loop wl uuid addr = Some wl' ->
  count_occupied wl' = count_occupied wl + 1.
Proof.
  intros H. apply push_loop_Some in H
    as (pre & d & post & -> & -> & He & _).
  rewrite !count_occupied_app, !count_occupied_cons.
  cbn [addr_is_empty]. rewrite He. lia.
Qed.

Lemma push_loop_uuids wl uuid addr wl' :
  push_loop wl uuid addr = Some wl' ->
  map device_uuid wl' = map device_uuid wl.
Proof.
  intros H. apply push_loop_Some in H
    as (pre & d & post & -> & -> & _).
  now rewrite !map_app.
Qed.

Lemma push_loop_length wl uuid addr wl' :
  push_loop wl uuid addr = Some wl' -> length wl' = length wl.
Proof.
  intros H. apply push_loop_uuids in H.
  apply (f_equal (@length _)) in H. now rewrite !length_map in H.
Qed.

Lemma push_loop_holders wl uuid addr wl' a :
  push_loop wl uuid addr = Some wl' ->
  existsb (holds_addr a) wl'
  = existsb (holds_addr a) wl || addrs_are_equal addr a.
Proof.
  intros H. apply push_loop_Some in H
    as (pre & d & post & -> & -> & He & _).
  rewrite !existsb_app. cbn [existsb].
  assert (Hn : holds_addr a (mk_device (device_uuid d) addr false)
               = addrs_are_equal addr a) by reflexivity.
  assert (Ho : holds_addr a d = false)
    by (unfold holds_addr; rewrite He; reflexivity).
  rewrite Hn, Ho.
  destruct (existsb (holds_addr a) pre), (existsb (holds_addr a) post),
    (addrs_are_equal addr a); reflexivity.
Qed.

Lemma push_loop_unique wl uuid addr wl' :
  addrs_unique wl ->
  existsb (holds_addr addr) wl = false ->
  push_loop wl uuid addr = Some wl' ->
  addrs_unique wl'.
Proof.
  revert wl'. induction wl as [| d wl IH]; intros wl' U N H;
    [discriminate |].
  cbn in H. cbn [addrs_unique] in U. destruct U as [U1 U2].
  cbn [existsb] in N. apply orb_false_iff in N as [N1 N2].
  destruct (addr_is_empty d && uuids16_are_equal (device_uuid d) uuid).
  - injection H as <-. cbn. split; auto.
  - destruct (push_loop wl uuid addr) as [r |] eqn:P; [| discriminate].
    injection H as <-. cbn [addrs_unique]. split.
    + intros E. rewrite (push_loop_holders _ _ _ _ _ P).
      rewrite (U1 E). cbn.
      unfold holds_addr in N1. rewrite E in N1. cbn in N1.
      now rewrite addrs_are_equal_sym.
    + now apply IH.
Qed.

(** ** The removal loop *)

Lemma remove_loop_None hit wl :
  remove_loop hit wl = None <->
  existsb (fun d => negb (addr_is_empty d) && hit d) wl = false.
Proof.
  induction wl as [| d wl IH]; cbn; [tauto |].
  destruct (negb (addr_is_empty d) && hit d); cbn.
  - split; discriminate.
  - destruct (remove_loop hit wl); cbn.
    + split; [discriminate |]. intros H. apply IH in H. discriminate.
    + split; [intros _; now apply IH | reflexivity].
Qed.

Lemma remove_loop_Some hit wl wl' :
  remove_loop hit wl = Some wl' ->
  exists pre d post,
    wl = pre ++ d :: post
    /\ wl' = pre ++ mk_device (device_uuid d) (device_addr d) true :: post
    /\ addr_is_empty d = false
    /\ hit d = true
    /\ forall x, In x pre -> negb (addr_is_empty x) && hit x = false.
Proof.
  revert wl'. induction wl as [| d wl IH]; intros wl' H; [discriminate |].
  cbn in H.
  destruct (negb (addr_is_empty d) && hit d) eqn:E.
  - injection H as <-. apply andb_true_iff in E as [E1 E2].
    apply negb_true_iff in E1.
    exists [], d, wl. cbn. repeat split; auto. intros x [].
  - destruct (remove_loop hit wl) as [r |] eqn:P; [| discriminate].
    injection H as <-.
    destruct (IH r eq_refl) as (pre & d0 & post & -> & -> & H1 & H2 & H3).
    exists (d :: pre), d0, post. cbn. repeat split; auto.
    intros x [<- | Hx]; auto.
Qed.

Lemma remove_loop_count hit wl wl' :
  remove_loop hit wl = Some wl' ->
  count_occupied wl' = count_occupied wl - 1.
Proof.
  intros H. apply remove_loop_Some in H
    as (pre & d & post & -> & -> & He & _).
  rewrite !count_occupied_app, !count_occupied_cons.
  cbn [addr_is_empty]. rewrite He. lia.
Qed.

Lemma remove_loop_uuids hit wl wl' :
  remove_loop hit wl = Some wl' ->
  map device_uuid wl' = map device_uuid wl.
Proof.
  intros H. apply remove_loop_Some in H
    as (pre & d & post & -> & -> & _).
  now rewrite !map_app.
Qed.

Lemma remove_loop_length hit wl wl' :
  remove_loop hit wl = Some wl' -> length wl' = length wl.
Proof.
  intros H. apply remove_loop_uuids in H.
  apply (f_equal (@length _)) in H. now rewrite !length_map in H.
Qed.

Lemma remove_loop_holders hit wl wl' a :
  remove_loop hit wl = Some wl' ->
  existsb (holds_addr a) wl = false ->
  existsb (holds_addr a) wl' = false.
Proof.
  intros H. apply remove_loop_Some in H
    as (pre & d & post & -> & -> & _).
  rewrite !existsb_app. cbn [existsb].
  intros N. apply orb_false_iff in N as [N1 N2].
  apply orb_false_iff in N2 as [_ N2].
  now rewrite N1, N2.
Qed.

Lemma remove_loop_unique hit wl wl' :
  addrs_unique wl -> remove_loop hit wl = Some wl' -> addrs_unique wl'.
Proof.
  revert wl'. induction wl as [| d wl IH]; intros wl' U H;
    [discriminate |].
  cbn in H. cbn [addrs_unique] in U. destruct U as [U1 U2].
  destruct (negb (addr_is_empty d) && hit d).
  - injection H as <-. cbn. split; [discriminate | assumption].
  - destruct (remove_loop hit wl) as [r |] eqn:P; [| discriminate].
    injection H as <-. cbn [addrs_unique]. split.
    + intros E. apply (remove_loop_holders _ _ _ _ P). auto.
    + now apply IH.
Qed.

(** After the first holder of an address is cleared no slot holds it,
    as long as the addresses were unique. *)
Lemma remove_loop_by_addr_gone a wl wl' :
  addrs_unique wl ->
  remove_loop (fun d => addrs_are_equal (device_addr d) a) wl = Some wl' ->
  existsb (holds_addr a) wl' = false.
Proof.
  revert wl'. induction wl as [| d wl IH]; intros wl' U H;
    [discriminate |].
  cbn in H. cbn [addrs_unique] in U. destruct U as [U1 U2].
  destruct (negb (addr_is_empty d) && addrs_are_equal (device_addr d) a)
           eqn:E.
  - injection H as <-. cbn [existsb]. unfold holds_addr at 1. cbn.
    apply andb_true_iff in E as [E1 E2]. apply negb_true_iff in E1.
    specialize (U1 E1).
    (* the holders of [a] are the holders of [device_addr d] *)
    clear - U1 E2. induction wl as [| x wl IH]; [reflexivity |].
    cbn [existsb] in *. apply orb_false_iff in U1 as [V1 V2].
    rewrite (IH V2), orb_false_r.
    unfold holds_addr in *.
    destruct (addr_is_empty x); [reflexivity |]. cbn in *.
    unfold addrs_are_equal in *.
    destruct (addr_type (device_addr d) =? addr_type a) eqn:T;
      [| discriminate].
    apply Z.eqb_eq in T. rewrite <- T.
    destruct (addr_type (device_addr x) =? addr_type (device_addr d));
      [| reflexivity].
    destruct (bytes_eqb (firstn 6 (addr_val (device_addr d)))
                        (firstn 6 (addr_val a))) eqn:B; [| discriminate].
    assert (Hb : firstn 6 (addr_val (device_addr d))
                 = firstn 6 (addr_val a)).
    { clear - B.
      generalize dependent (firstn 6 (addr_val a)).
      induction (firstn 6 (addr_val (device_addr d))) as [| y l IHl];
        intros [| z l'] B; cbn in B; try discriminate; [reflexivity |].
      apply andb_true_iff in B as [B1 B2].
      apply Z.eqb_eq in B1. subst. f_equal. now apply IHl. }
    rewrite <- Hb. exact V1.
  - destruct (remove_loop _ wl) as [r |] eqn:P; [| discriminate].
    injection H as <-. cbn [existsb].
    unfold holds_addr at 1. rewrite E. cbn. now apply IH.
Qed.

(** ** Operations on the state *)

Lemma no_holder_contains addr s :
  existsb (holds_addr addr) (white_list s) = false ->
  white_list_contains_addr addr s = false.
Proof.
  intros H. unfold white_list_contains_addr.
  destruct (negb (wl_is_initialised s)); [reflexivity |].
  destruct (white_list_len s =? 0); [reflexivity |]. exact H.
Qed.

Lemma gate_no_holder addr s :
  wl_inv s -> wl_is_initialised s = true -> insert_gate addr s ->
  existsb (holds_addr addr) (white_list s) = false.
Proof.
  intros (_ & Hc & _) Hi [G | G].
  - unfold white_list_contains_addr in G. rewrite Hi in G. cbn in G.
    destruct (white_list_len s =? 0) eqn:E; [| exact G].
    apply Z.eqb_eq in E. apply count_zero_no_holder.
    rewrite <- (Hc Hi). exact E.
  - unfold white_list_is_empty in G. apply Z.eqb_eq in G.
    apply count_zero_no_holder. rewrite <- (Hc Hi). exact G.
Qed.

Lemma init_keeps s :
  wl_inv s -> wl_inv (snd (init_white_list s)).
Proof.
  intros (Hl & Hc & Hu & Hd). unfold init_white_list.
  destruct (wl_is_initialised s) eqn:E; cbn [snd].
  - repeat split; auto.
  - repeat split; cbn; auto. intros _.
    unfold get_white_list_len.
    pose proof (count_occupied_range (white_list s)).
    unfold white_list_size in Hl.
    rewrite count_loop_spec; lia.
Qed.

Lemma deinit_keeps s :
  wl_inv s -> wl_inv (snd (deinit_white_list s)).
Proof.
  intros (Hl & Hc & Hu & Hd). unfold deinit_white_list.
  destruct (wl_is_initialised s) eqn:E; cbn.
  - unfold wl_inv. cbn. repeat split; auto. discriminate.
  - unfold wl_inv. rewrite E. repeat split; auto.
Qed.

Lemma push_keeps uuid addr s :
  wl_inv s -> insert_gate addr s ->
  wl_inv (snd (push_to_white_list uuid addr s)).
Proof.
  intros I G. pose proof I as (Hl & Hc & Hu & Hd).
  unfold push_to_white_list.
  destruct (wl_is_initialised s) eqn:E; cbn [negb]; [| exact I].
  destruct (white_list_len s =? white_list_size); [exact I |].
  destruct (push_loop (white_list s) uuid addr) as [wl' |] eqn:P;
    [| exact I].
  cbn [snd]. unfold wl_inv. cbn [white_list wl_is_initialised
                                  white_list_len].
  rewrite (push_loop_length _ _ _ _ P), (push_loop_uuids _ _ _ _ P).
  repeat split; auto.
  - intros _. rewrite (push_loop_count _ _ _ _ P), (Hc eq_refl).
    pose proof (count_occupied_range (white_list s)).
    unfold white_list_size in Hl. unfold u8.
    apply Z.mod_small. lia.
  - apply (push_loop_unique _ _ _ _ Hu (gate_no_holder _ _ I E G) P).
Qed.

Lemma remove_keeps hit s :
  wl_inv s -> wl_inv (snd (remove_with hit s)).
Proof.
  intros I. pose proof I as (Hl & Hc & Hu & Hd).
  unfold remove_with.
  destruct (wl_is_initialised s) eqn:E; cbn [negb]; [| exact I].
  destruct (white_list_len s =? 0) eqn:Z0; [exact I |].
  destruct (remove_loop hit (white_list s)) as [wl' |] eqn:P;
    [| exact I].
  cbn [snd]. unfold wl_inv. cbn [white_list wl_is_initialised
                                  white_list_len].
  rewrite (remove_loop_length _ _ _ P), (remove_loop_uuids _ _ _ P).
  repeat split; auto.
  - intros _. rewrite (remove_loop_count _ _ _ P), (Hc eq_refl).
    pose proof (count_occupied_range (white_list s)).
    apply Z.eqb_neq in Z0. rewrite (Hc eq_refl) in Z0.
    unfold white_list_size in Hl. unfold u8.
    apply Z.mod_small. lia.
  - apply (remove_loop_unique _ _ _ Hu P).
Qed.

(** No operation writes a slot's uuid. *)
Lemma init_uuids s :
  map device_uuid (white_list (snd (init_white_list s)))
  = map device_uuid (white_list s).
Proof. unfold init_white_list. now destruct (wl_is_initialised s). Qed.

Lemma deinit_uuids s :
  map device_uuid (white_list (snd (deinit_white_list s)))
  = map device_uuid (white_list s).
Proof. unfold deinit_white_list. now destruct (wl_is_initialised s). Qed.

Lemma push_uuids uuid addr s :
  map device_uuid (white_list (snd (push_to_white_list uuid addr s)))
  = map device_uuid (white_list s).
Proof.
  unfold push_to_white_list.
  destruct (negb (wl_is_initialised s)); [reflexivity |].
  destruct (white_list_len s =? white_list_size); [reflexivity |].
  destruct (push_loop (white_list s) uuid addr) eqn:P; [| reflexivity].
  exact (push_loop_uuids _ _ _ _ P).
Qed.

Lemma remove_uuids hit s :
  map device_uuid (white_list (snd (remove_with hit s)))
  = map device_uuid (white_list s).
Proof.
  unfold remove_with.
  destruct (negb (wl_is_initialised s)); [reflexivity |].
  destruct (white_list_len s =? 0); [reflexivity |].
  destruct (remove_loop hit (white_list s)) eqn:P; [| reflexivity].
  exact (remove_loop_uuids _ _ _ P).
Qed.

Lemma wl_boot_inv : wl_inv wl_boot.
Proof.
  unfold wl_inv. cbn. repeat split; try discriminate; auto.
  repeat constructor; cbn; intuition discriminate.
Qed.

Lemma wl_ready_inv : wl_inv wl_ready.
Proof. exact (init_keeps wl_boot wl_boot_inv). Qed.

Lemma wl_sample_inv : wl_inv wl_sample.
Proof.
  unfold wl_inv. cbn. repeat split; try discriminate; auto.
  repeat constructor; cbn; intuition discriminate.
Qed.

(** C4.  The white list as booted satisfies the invariant, and every
    operation that changes the state keeps it and leaves every slot's
    uuid as it was: [init_white_list], [deinit_white_list],
    [push_to_white_list] when called under the gate of
    [connect_if_interesting], and the two removals.  (The queries
    return a value and no state.)  The invariant: while initialised the
    length equals the number of occupied slots, no two occupied slots
    hold the same address, and the slots' uuids are distinct. *)
Theorem white_list_invariant :
  wl_inv wl_boot
  /\ forall s : wl_state,
      wl_inv s ->
      let keeps (r : esp_err_t * wl_state) :=
        wl_inv (snd r)
        /\ map device_uuid (white_list (snd r))
           = map device_uuid (white_list s) in
      keeps (init_white_list s)
      /\ keeps (deinit_white_list s)
      /\ (forall uuid addr,
             insert_gate addr s -> keeps (push_to_white_list uuid addr s))
      /\ (forall addr, keeps (remove_from_white_list_by_addr addr s))
      /\ (forall uuid, keeps (remove_from_white_list_by_uuid16 uuid s)).
Proof.
  split; [exact wl_boot_inv |].
  intros s I keeps. subst keeps. cbv beta.
  split; [split; [now apply init_keeps | apply init_uuids] |].
  split; [split; [now apply deinit_keeps | apply deinit_uuids] |].
  split; [intros uuid addr G;
          split; [now apply push_keeps | apply push_uuids] |].
  split; intros x;
    (split; [now apply remove_keeps | apply remove_uuids]).
Qed.

Lemma white_list_invariant_witness :
  wl_inv wl_sample
  /\ insert_gate other_addr wl_sample
  /\ wl_inv (snd (push_to_white_list (BLE_UUID16_INIT 0x1809)
                                     other_addr wl_sample)).
Proof.
  split; [exact wl_sample_inv |].
  split; [left; reflexivity |].
  apply (proj2 white_list_invariant wl_sample wl_sample_inv).
  left. reflexivity.
Defined.

(** C5.  [push_to_white_list] fails, leaving the state as it was, when
    the white list is not initialised, when its length equals its
    size, and when no empty slot has the given uuid; otherwise it
    succeeds: the first empty slot of that uuid (the only slot of that
    uuid when uuids are distinct) becomes occupied with the given
    address, the length grows by one, and every other slot is as
    before.  It fails in no other case, and every failure leaves the
    state unchanged. *)
Theorem push_to_white_list_outcome
        (uuid : ble_uuid16_t) (addr : ble_addr_t) (s : wl_state) :
  let no_slot :=
    forall d, In d (white_list s) ->
              addr_is_empty d = true -> device_uuid d <> uuid in
  (wl_is_initialised s = false ->
   push_to_white_list uuid addr s = (ESP_FAIL, s))
  /\ (white_list_len s = white_list_size ->
      push_to_white_list uuid addr s = (ESP_FAIL, s))
  /\ (no_slot -> push_to_white_list uuid addr s = (ESP_FAIL, s))
  /\ (wl_is_initialised s = true ->
      white_list_len s <> white_list_size ->
      ~ no_slot ->
      exists pre d post,
        white_list s = pre ++ d :: post
        /\ addr_is_empty d = true
        /\ device_uuid d = uuid
        /\ (forall x, In x pre ->
                      addr_is_empty x = true -> device_uuid x <> uuid)
        /\ (NoDup (map device_uuid (white_list s)) ->
            forall x, In x (pre ++ post) -> device_uuid x <> uuid)
        /\ push_to_white_list uuid addr s
           = (ESP_OK,
              mk_wl true (u8 (white_list_len s + 1))
                    (pre ++ mk_device uuid addr false :: post)))
  /\ (fst (push_to_white_list uuid addr s) = ESP_FAIL ->
      snd (push_to_white_list uuid addr s) = s).
Proof.
  intros no_slot.
  assert (Hnone : no_slot <-> push_loop (white_list s) uuid addr = None).
  { rewrite push_loop_None. subst no_slot. split.
    - intros H. apply not_true_is_false. intros E.
      apply existsb_exists in E as (d & Hd & E).
      apply andb_true_iff in E as [E1 E2].
      apply uuids16_are_equal_eq in E2. exact (H d Hd E1 E2).
    - intros H d Hd E1 E2.
      assert (existsb (fun d => addr_is_empty d
                        && uuids16_are_equal (device_uuid d) uuid)
                      (white_list s) = true) as C.
      { apply existsb_exists. exists d. split; [exact Hd |].
        rewrite E1. cbn. now apply uuids16_are_equal_eq. }
      congruence. }
  unfold push_to_white_list.
  split; [intros ->; reflexivity |].
  split; [intros ->; rewrite Z.eqb_refl;
          now destruct (negb (wl_is_initialised s)) |].
  split.
  { intros H. apply Hnone in H. rewrite H.
    destruct (negb (wl_is_initialised s)); [reflexivity |].
    now destruct (white_list_len s =? white_list_size). }
  split.
  - intros Hi Hlen Hslot. rewrite Hi. cbn [negb].
    apply Z.eqb_neq in Hlen. rewrite Hlen.
    destruct (push_loop (white_list s) uuid addr) as [wl' |] eqn:P;
      [| exfalso; apply Hslot, Hnone; reflexivity].
    apply push_loop_Some in P
      as (pre & d & post & Hwl & -> & He & Hu & Hpre).
    exists pre, d, post. rewrite Hu.
    repeat split; auto.
    + intros x Hx Ex Ux. specialize (Hpre x Hx).
      rewrite Ex in Hpre. cbn in Hpre.
      apply uuids16_are_equal_eq in Ux. congruence.
    + intros ND x Hx Ux. rewrite Hwl, map_app in ND. cbn [map] in ND.
      apply NoDup_remove_2 in ND. apply ND.
      rewrite <- map_app, Hu, <- Ux. now apply in_map.
  - destruct (negb (wl_is_initialised s)); [reflexivity |].
    destruct (white_list_len s =? white_list_size); [reflexivity |].
    destruct (push_loop (white_list s) uuid addr); [discriminate |].
    reflexivity.
Qed.

Lemma push_to_white_list_outcome_witness :
  (wl_is_initialised wl_boot = false
   /\ push_to_white_list (BLE_UUID16_INIT 0x1822) sample_addr wl_boot
      = (ESP_FAIL, wl_boot))
  /\ (wl_is_initialised wl_ready = true
      /\ white_list_len wl_ready <> white_list_size
      /\ exists pre d post,
          white_list wl_ready = pre ++ d :: post
          /\ push_to_white_list (BLE_UUID16_INIT 0x1822) sample_addr
                                wl_ready
             = (ESP_OK,
                mk_wl true (u8 (white_list_len wl_ready + 1))
                      (pre ++ mk_device (BLE_UUID16_INIT 0x1822)
                                        sample_addr false :: post))).
Proof.
  pose proof (push_to_white_list_outcome
                (BLE_UUID16_INIT 0x1822) sample_addr wl_boot) as Hb.
  pose proof (push_to_white_list_outcome
                (BLE_UUID16_INIT 0x1822) sample_addr wl_ready) as Hr.
  cbv zeta in Hb, Hr.
  split.
  - split; [reflexivity |]. apply (proj1 Hb). reflexivity.
  - split; [reflexivity |]. split; [discriminate |].
    destruct Hr as (_ & _ & _ & Hr & _).
    destruct Hr as (pre & d & post & Hw & _ & _ & _ & _ & Hp).
    + reflexivity.
    + discriminate.
    + intros H.
      apply (H (mk_device (BLE_UUID16_INIT 0x1822) zero_addr true));
        [cbn; tauto | reflexivity | reflexivity].
    + exists pre, d, post. split; assumption.
Defined.

(** ** Insertion undone by removal *)

Lemma push_remove_loop wl uuid addr wl' :
  existsb (holds_addr addr) wl = false ->
  push_loop wl uuid addr = Some wl' ->
  exists wl'',
    remove_loop (fun d => addrs_are_equal (device_addr d) addr) wl'
    = Some wl''
    /\ map (fun d => (device_uuid d, addr_is_empty d)) wl''
       = map (fun d => (device_uuid d, addr_is_empty d)) wl.
Proof.
  revert wl'. induction wl as [| d wl IH]; intros wl' N H;
    [discriminate |].
  cbn in H. cbn [existsb] in N. apply orb_false_iff in N as [N1 N2].
  destruct (addr_is_empty d && uuids16_are_equal (device_uuid d) uuid)
           eqn:E.
  - injection H as <-. cbn. rewrite addrs_are_equal_refl. cbn.
    eexists. split; [reflexivity |]. cbn.
    apply andb_true_iff in E as [-> _]. reflexivity.
  - destruct (push_loop wl uuid addr) as [r |] eqn:P; [| discriminate].
    injection H as <-.
    destruct (IH r N2 eq_refl) as (r' & Hr & Hm).
    cbn [remove_loop]. unfold holds_addr in N1. rewrite N1, Hr. cbn.
    eexists. split; [reflexivity |]. cbn. now rewrite Hm.
Qed.

(** Under the gate, an insertion followed by the removal of the same
    address leaves the occupancy as it was before the insertion. *)
Lemma push_remove_restores uuid addr w :
  wl_inv w -> insert_gate addr w ->
  occupancy (snd (remove_from_white_list_by_addr
                    addr (snd (push_to_white_list uuid addr w))))
  = occupancy w.
Proof.
  intros I G. pose proof I as (Hl & Hc & Hu & Hd).
  unfold push_to_white_list.
  destruct (wl_is_initialised w) eqn:E; cbn [negb].
  2:{ cbn [snd]. unfold remove_from_white_list_by_addr, remove_with.
      rewrite E. reflexivity. }
  pose proof (gate_no_holder _ _ I E G) as N.
  assert (Hfail : occupancy (snd (remove_from_white_list_by_addr addr w))
                  = occupancy w).
  { unfold remove_from_white_list_by_addr, remove_with. rewrite E.
    cbn [negb].
    destruct (white_list_len w =? 0); [reflexivity |].
    destruct (remove_loop _ (white_list w)) eqn:R; [| reflexivity].
    rewrite (proj2 (remove_loop_None
                      (fun d => addrs_are_equal (device_addr d) addr)
                      (white_list w)) N) in R.
    discriminate R. }
  destruct (white_list_len w =? white_list_size) eqn:F;
    [exact Hfail |].
  destruct (push_loop (white_list w) uuid addr) as [wl' |] eqn:P;
    [| exact Hfail].
  cbn [snd].
  destruct (push_remove_loop _ _ _ _ N P) as (wl'' & R & M).
  unfold remove_from_white_list_by_addr, remove_with.
  cbn [wl_is_initialised white_list_len white_list negb].
  pose proof (count_occupied_range (white_list w)) as Hr.
  specialize (Hc eq_refl). apply Z.eqb_neq in F.
  unfold white_list_size in *.
  assert (Hlen : u8 (white_list_len w + 1) = white_list_len w + 1)
    by (unfold u8; apply Z.mod_small; lia).
  rewrite Hlen.
  destruct (Z.eqb_spec (white_list_len w + 1) 0); [lia |].
  rewrite R. cbn [snd]. unfold occupancy.
  cbn [wl_is_initialised white_list_len white_list].
  rewrite M, E. f_equal. f_equal.
  unfold u8. rewrite Z.mod_small; lia.
Qed.

(** After [remove_from_white_list_by_addr] the address is not in the
    white list. *)
Lemma remove_by_addr_gone addr w :
  wl_inv w ->
  white_list_contains_addr
    addr (snd (remove_from_white_list_by_addr addr w)) = false.
Proof.
  intros (Hl & Hc & Hu & Hd).
  unfold remove_from_white_list_by_addr, remove_with.
  destruct (wl_is_initialised w) eqn:E; cbn [negb].
  2:{ cbn [snd]. unfold white_list_contains_addr. now rewrite E. }
  destruct (white_list_len w =? 0) eqn:Z0.
  { cbn [snd]. unfold white_list_contains_addr. now rewrite E, Z0. }
  destruct (remove_loop _ (white_list w)) as [wl' |] eqn:R; cbn [snd].
  - apply no_holder_contains. cbn [white_list].
    exact (remove_loop_by_addr_gone _ _ _ Hu R).
  - apply no_holder_contains. apply remove_loop_None in R. exact R.
Qed.

(** ** The export of the addresses *)

Lemma count_occupied_addrs wl :
  count_occupied wl = Z.of_nat (length (occupied_addrs wl)).
Proof.
  unfold count_occupied, occupied_addrs. now rewrite length_map.
Qed.

Lemma occupied_addrs_cons d wl :
  occupied_addrs (d :: wl)
  = if addr_is_empty d then occupied_addrs wl
    else device_addr d :: occupied_addrs wl.
Proof.
  unfold occupied_addrs. cbn [filter]. now destruct (addr_is_empty d).
Qed.

(** A successful export has written the occupied addresses, in slot
    order, after what the block held. *)
Lemma addr_loop_ok wl size cnt block size' out :
  addr_loop wl size cnt block = export_ok size' out ->
  size' = size /\ out = block ++ occupied_addrs wl.
Proof.
  revert cnt block. induction wl as [| d wl IH]; intros cnt block H.
  - cbn in H. injection H as <- <-. now rewrite app_nil_r.
  - cbn [addr_loop] in H. rewrite occupied_addrs_cons.
    destruct (addr_is_empty d); cbn [negb] in H.
    + now apply IH in H.
    + destruct ((cnt + 1) * sizeof_ble_addr_t <=? size);
        [| discriminate].
      apply IH in H as [-> ->]. now rewrite <- app_assoc.
Qed.

(** An export that overflows has written some of the occupied addresses,
    in slot order, and stops at the next one. *)
Lemma addr_loop_overflow wl size cnt block size' out next :
  addr_loop wl size cnt block = export_overflow size' out next ->
  size' = size
  /\ exists mid rest,
      out = block ++ mid /\ occupied_addrs wl = mid ++ next :: rest.
Proof.
  revert cnt block. induction wl as [| d wl IH]; intros cnt block H.
  - discriminate H.
  - cbn [addr_loop] in H. rewrite occupied_addrs_cons.
    destruct (addr_is_empty d); cbn [negb] in H.
    + now apply IH in H.
    + destruct ((cnt + 1) * sizeof_ble_addr_t <=? size).
      * apply IH in H as [-> (mid & rest & -> & E)].
        split; [reflexivity |].
        exists (device_addr d :: mid), rest.
        rewrite <- app_assoc. cbn. now rewrite E.
      * injection H as <- <- <-. split; [reflexivity |].
        exists [], (occupied_addrs wl). now rewrite app_nil_r.
Qed.

Lemma addr_loop_not_fail wl size cnt block :
  addr_loop wl size cnt block <> export_fail.
Proof.
  revert cnt block. induction wl as [| d wl IH]; intros cnt block;
    cbn [addr_loop]; [discriminate |].
  destruct (addr_is_empty d); cbn [negb]; [apply IH |].
  destruct (_ <=? size); [apply IH | discriminate].
Qed.

(** The bytes written: with a counter no larger than the number of
    entries, a successful export has stayed inside the block and an
    overflowing one has not. *)
Lemma addr_loop_bytes wl size cnt block :
  0 <= cnt <= Z.of_nat (length block) ->
  (Z.of_nat (length block) = cnt ->
   size < 256 * sizeof_ble_addr_t ->
   sizeof_ble_addr_t * cnt <= size ->
   forall out, addr_loop wl size cnt block = export_ok size out ->
               sizeof_ble_addr_t * Z.of_nat (length out) <= size)
  /\ (forall out next,
         addr_loop wl size cnt block = export_overflow size out next ->
         size < sizeof_ble_addr_t * (Z.of_nat (length out) + 1)).
Proof.
  revert cnt block. induction wl as [| d wl IH]; intros cnt block Hc.
  - split; [| discriminate].
    intros Hl _ Hs out H. cbn in H. injection H as <-. lia.
  - cbn [addr_loop]. destruct (addr_is_empty d); cbn [negb];
      [exact (IH cnt block Hc) |].
    destruct (Z.leb_spec ((cnt + 1) * sizeof_ble_addr_t) size) as [L | L].
    + assert (Hu : 0 <= u8 (cnt + 1) <= cnt + 1).
      { unfold u8. pose proof (Z.mod_pos_bound (cnt + 1) 256).
        pose proof (Z.mod_le (cnt + 1) 256). lia. }
      assert (Hlen : Z.of_nat (length (block ++ [device_addr d]))
                     = Z.of_nat (length block) + 1).
      { rewrite length_app. cbn [length]. lia. }
      destruct (IH (u8 (cnt + 1)) (block ++ [device_addr d])) as [I1 I2];
        [lia |].
      split; [| exact I2].
      intros Hl Hb Hs out H.
      assert (E : u8 (cnt + 1) = cnt + 1).
      { unfold u8. apply Z.mod_small. unfold sizeof_ble_addr_t in *. lia. }
      apply I1; try assumption; rewrite ?E; lia.
    + split; [discriminate |].
      intros out next H. injection H as <- _.
      unfold sizeof_ble_addr_t in *. lia.
Qed.

(** With less room than one more entry takes, the first occupied slot
    overflows the block. *)
Lemma addr_loop_tight wl size cnt block :
  size < (cnt + 1) * sizeof_ble_addr_t ->
  addr_loop wl size cnt block
  = match occupied_addrs wl with
    | [] => export_ok size block
    | a :: _ => export_overflow size block a
    end.
Proof.
  intros H. induction wl as [| d wl IH]; [reflexivity |].
  cbn [addr_loop]. rewrite occupied_addrs_cons.
  destruct (addr_is_empty d); cbn [negb]; [exact IH |].
  destruct (Z.leb_spec ((cnt + 1) * sizeof_ble_addr_t) size);
    [lia | reflexivity].
Qed.

(** Under the invariant every export of a white list that is not empty
    overflows its block at the first address: the block has as many
    bytes as there are addresses. *)
Lemma export_overflows s :
  wl_inv s -> wl_is_initialised s = true -> white_list_len s <> 0 ->
  exists a rest,
    occupied_addrs (white_list s) = a :: rest
    /\ get_addr_white_list s = export_overflow (white_list_len s) [] a.
Proof.
  intros (Hn & Hc & _ & _) Hi Hl. specialize (Hc Hi).
  unfold get_addr_white_list. rewrite Hi. cbn [negb].
  destruct (Z.eqb_spec (white_list_len s) 0) as [E | _]; [contradiction |].
  pose proof (count_occupied_range (white_list s)) as R.
  rewrite addr_loop_tight
    by (unfold sizeof_ble_addr_t, white_list_size in *; lia).
  rewrite count_occupied_addrs in Hc.
  destruct (occupied_addrs (white_list s)) as [| a rest].
  - cbn in Hc. contradiction.
  - exists a, rest. split; reflexivity.
Qed.

(** ** What a successful insertion leaves in the table *)


(** ** The removal of an address that is not there, or another one *)

Lemma bytes_eqb_true (l1 l2 : list Z) : bytes_eqb l1 l2 = true -> l1 = l2.
Proof.
  revert l2. induction l1 as [| x l1 IH]; intros [| y l2]; cbn;
    intros H; try discriminate; try reflexivity.
  apply andb_true_iff in H as [H1 H2]. apply Z.eqb_eq in H1.
  apply IH in H2. congruence.
Qed.

Lemma addrs_are_equal_chain (a b c : ble_addr_t) :
  addrs_are_equal a b = true -> addrs_are_equal a c = true ->
  addrs_are_equal b c = true.
Proof.
  unfold addrs_are_equal.
  destruct (Z.eqb_spec (addr_type a) (addr_type b)) as [T1 |];
    [| discriminate].
  destruct (bytes_eqb (firstn 6 (addr_val a)) (firstn 6 (addr_val b)))
           eqn:B1; [| discriminate].
  destruct (Z.eqb_spec (addr_type a) (addr_type c)) as [T2 |];
    [| discriminate].
  destruct (bytes_eqb (firstn 6 (addr_val a)) (firstn 6 (addr_val c)))
           eqn:B2; [| discriminate].
  intros _ _. apply bytes_eqb_true in B1, B2.
  rewrite <- T1, T2, Z.eqb_refl, <- B1, B2, bytes_eqb_refl. reflexivity.
Qed.

(** Under the gate of the insertion there is nothing to remove. *)
Lemma remove_gated_nothing addr w :
  wl_inv w -> insert_gate addr w ->
  snd (remove_from_white_list_by_addr addr w) = w.
Proof.
  intros I G. unfold remove_from_white_list_by_addr, remove_with.
  destruct (wl_is_initialised w) eqn:E; cbn [negb]; [| reflexivity].
  destruct (white_list_len w =? 0); [reflexivity |].
  pose proof (gate_no_holder _ _ I E G) as N.
  destruct (remove_loop _ (white_list w)) eqn:R; [| reflexivity].
  rewrite (proj2 (remove_loop_None
                    (fun d => addrs_are_equal (device_addr d) addr)
                    (white_list w)) N) in R.
  discriminate R.
Qed.

Lemma holder_counts a wl :
  existsb (holds_addr a) wl = true -> 1 <= count_occupied wl.
Proof.
  intros H. pose proof (count_occupied_range wl) as R.
  destruct (Z.eq_dec (count_occupied wl) 0) as [E | E]; [| lia].
  rewrite (count_zero_no_holder a wl E) in H. discriminate H.
Qed.

(** The removal of one address leaves every other address where it
    is. *)
Lemma remove_by_addr_other x a w :
  wl_inv w -> addrs_are_equal x a = false ->
  white_list_contains_addr
    a (snd (remove_from_white_list_by_addr x w))
  = white_list_contains_addr a w.
Proof.
  intros (Hl & Hc & _ & _) Hx.
  unfold remove_from_white_list_by_addr, remove_with.
  destruct (wl_is_initialised w) eqn:E; cbn [negb]; [| reflexivity].
  destruct (Z.eqb_spec (white_list_len w) 0) as [Z0 | Z0];
    [reflexivity |].
  destruct (remove_loop _ (white_list w)) as [wl' |] eqn:R;
    [| reflexivity].
  cbn [snd]. specialize (Hc eq_refl).
  apply remove_loop_Some in R
    as (pre & d & post & Hw & -> & He & Hh & _).
  unfold white_list_contains_addr.
  cbn [wl_is_initialised white_list_len white_list]. rewrite E.
  cbn [negb]. destruct (Z.eqb_spec (white_list_len w) 0); [lia |].
  change (fun d0 => negb (addr_is_empty d0)
                    && addrs_are_equal (device_addr d0) a)
    with (holds_addr a).
  assert (Hd : holds_addr a d = false).
  { unfold holds_addr. rewrite He. cbn [negb andb].
    destruct (addrs_are_equal (device_addr d) a) eqn:Ha;
      [| reflexivity].
    rewrite (addrs_are_equal_chain _ _ _ Hh Ha) in Hx. discriminate Hx. }
  assert (Hsame : existsb (holds_addr a)
                          (pre ++ mk_device (device_uuid d)
                                            (device_addr d) true :: post)
                  = existsb (holds_addr a) (white_list w)).
  { rewrite Hw, !existsb_app. cbn [existsb]. rewrite Hd.
    reflexivity. }
  rewrite Hsame.
  destruct (existsb (holds_addr a) (white_list w)) eqn:Ex.
  - rewrite Hw, existsb_app in Ex. cbn [existsb] in Ex.
    rewrite Hd in Ex. cbn [orb] in Ex.
    assert (Hpp : 1 <= count_occupied (pre ++ post)).
    { apply (holder_counts a). rewrite existsb_app. exact Ex. }
    rewrite Hw, count_occupied_app, count_occupied_cons, He in Hc.
    rewrite count_occupied_app in Hpp.
    pose proof (count_occupied_range (white_list w)) as Rg.
    rewrite Hw, count_occupied_app, count_occupied_cons, He in Rg.
    rewrite <- Hw in Rg. unfold white_list_size in Hl.
    assert (Hu : u8 (white_list_len w - 1) = white_list_len w - 1)
      by (unfold u8; apply Z.mod_small; lia).
    rewrite Hu. destruct (Z.eqb_spec (white_list_len w - 1) 0); [lia |].
    reflexivity.
  - now destruct (u8 (white_list_len w - 1) =? 0).
Qed.

End WhiteListFacts.

(* ================================================================= *)
(** * The packet codec *)
(* ================================================================= *)

Module AppPacketFacts.
Import AppPacket.

(** C9.  [open_packet] fails exactly when the declared length is below
    the two-byte header size or beyond the supplied bytes.  Otherwise
    it returns the 16-bit value of the first two bytes as the header
    and the following [len - 2] bytes as the body; no header value is
    rejected: every 16-bit header comes back as it was sent. *)
Theorem open_packet_outcome (data : list Z) (len : Z) :
  (open_packet data len = None <->
   len < HEADER_SIZE \/ Z.of_nat (length data) < len)
  /\ (HEADER_SIZE <= len <= Z.of_nat (length data) ->
      exists b0 b1 body rest,
        data = b0 :: b1 :: body ++ rest
        /\ Z.of_nat (length body) = len - HEADER_SIZE
        /\ open_packet data len = Some (b0 * 256 + b1, body)
        /\ (0 <= b0 < 256 -> 0 <= b1 < 256 ->
            0 <= b0 * 256 + b1 < 65536))
  /\ (forall header body,
         0 <= header < 65536 ->
         open_packet (header / 256 :: header mod 256 :: body)
                     (HEADER_SIZE + Z.of_nat (length body))
         = Some (header, body)).
Proof.
  unfold open_packet, HEADER_SIZE.
  split; [| split].
  - destruct (Z.ltb_spec len 2), (Z.ltb_spec (Z.of_nat (length data)) len);
      cbn; split; intros H'; try reflexivity; try discriminate; lia.
  - intros [H1 H2].
    destruct data as [| b0 [| b1 tl]]; cbn [length] in H2; try lia.
    exists b0, b1, (firstn (Z.to_nat (len - 2)) tl),
      (skipn (Z.to_nat (len - 2)) tl).
    rewrite firstn_skipn.
    split; [reflexivity |].
    split.
    { rewrite length_firstn, Nat.min_l by (cbn [length] in H2; lia).
      lia. }
    split; [| intros; lia].
    destruct (Z.ltb_spec len 2); [lia |].
    destruct (Z.ltb_spec (Z.of_nat (length (b0 :: b1 :: tl))) len);
      [cbn [length] in *; lia |].
    reflexivity.
  - intros header body H.
    destruct (Z.ltb_spec (2 + Z.of_nat (length body)) 2); [lia |].
    destruct (Z.ltb_spec (Z.of_nat (length (header / 256 :: header mod 256
                                              :: body)))
                         (2 + Z.of_nat (length body)));
      [cbn [length] in *; lia |].
    cbn [orb nth]. f_equal. f_equal.
    + pose proof (Z.div_mod header 256). lia.
    + replace (2 + Z.of_nat (length body) - 2)
        with (Z.of_nat (length body)) by lia.
      rewrite Nat2Z.id. cbn [Z.to_nat Pos.to_nat Pos.iter_op Nat.add skipn].
      apply firstn_all.
Qed.

Lemma open_packet_outcome_witness :
  HEADER_SIZE <= 4 <= Z.of_nat (length [0; 2; 37; 128])
  /\ exists b0 b1 body,
      Z.of_nat (length body) = 4 - HEADER_SIZE
      /\ open_packet [0; 2; 37; 128] 4 = Some (b0 * 256 + b1, body).
Proof.
  assert (H : HEADER_SIZE <= 4 <= Z.of_nat (length [0; 2; 37; 128]))
    by (unfold HEADER_SIZE; cbn; lia).
  split; [exact H |].
  destruct (proj1 (proj2 (open_packet_outcome [0; 2; 37; 128] 4)) H)
    as (b0 & b1 & body & rest & Hd & Hl & Ho & _).
  exists b0, b1, body. split; assumption.
Defined.

End AppPacketFacts.

(* ================================================================= *)
(** * The handlers of main.c *)
(* ================================================================= *)

Module GatewayFacts.
Import IEEE Analysis WhiteList Registry AppPacket Gateway Trace.
Import WhiteListFacts.

Ltac run :=
  unfold exec, bind, ret, when, get_mode, set_mode, get_addr_type,
    get_temp_data, set_temp_data, wl_get, wl_do, issue, undefined, free;
  cbn.


Lemma to_int8_range (i : Z) : -128 <= to_int8 i < 128.
Proof.
  unfold to_int8. pose proof (Z.mod_pos_bound (i + 128) 256). lia.
Qed.






Section Handlers.
Context {hdr : app_packet_h}.


Lemma read_cases {A : Type} (a : list A) (i : Z) (s : gw_state) :
  (exists x, 0 <= i /\ nth_error a (Z.to_nat i) = Some x
             /\ read a i s = (Some x, s))
  \/ read a i s = undefined read_out_of_bounds s.
Proof.
  unfold read. destruct (Z.ltb_spec i 0); [right; reflexivity |].
  destruct (nth_error a (Z.to_nat i)) as [x |] eqn:E;
    [| right; reflexivity].
  left. exists x. auto.
Qed.

(** What [connect_if_interesting] does: nothing; or the cancel, the
    insertion and the connect, in that order; or the cancel and a read
    outside the advertised uuids. *)
Lemma connect_if_interesting_cases fields disc s :
  let idx := interesting_index (uuids16 fields) 0 (wl s) in
  connect_if_interesting fields disc s = (Some tt, s)
  \/ (RSSI_ACCEPTABLE_LVL <= rssi disc
      /\ idx <> -1
      /\ insert_gate (addr disc) (wl s)
      /\ (exists body,
             open_packet (mfg_data fields) (mfg_data_len fields)
             = Some (REG_HEADER, body))
      /\ ((exists u,
              0 <= idx
              /\ nth_error (uuids16 fields) (Z.to_nat idx) = Some u
              /\ connect_if_interesting fields disc s
                 = (Some tt,
                    mk_gw (g_device_mode s) (g_ble_addr_type s)
                          (snd (push_to_white_list u (addr disc) (wl s)))
                          (temp_data s)
                          (calls s
                           ++ [mk_issued ble_gap_disc_cancel (wl s);
                               mk_issued
                                 (ble_gap_connect (g_ble_addr_type s)
                                                  (addr disc)
                                                  BLE_HS_FOREVER)
                                 (snd (push_to_white_list
                                         u (addr disc) (wl s)))])))
          \/ connect_if_interesting fields disc s
             = (None,
                mk_gw (g_device_mode s) (g_ble_addr_type s) (wl s)
                      (temp_data s)
                      (calls s
                       ++ issued_with
                            (wl s)
                            [ble_gap_disc_cancel;
                             undefined_behaviour read_out_of_bounds])))).
Proof.
  intros idx. unfold connect_if_interesting.
  destruct (Z.ltb_spec (rssi disc) RSSI_ACCEPTABLE_LVL) as [Hr | Hr];
    [left; reflexivity |].
  run. fold idx.
  destruct (Z.eqb_spec idx (-1)) as [Hi | Hi]; cbn [negb andb];
    [left; reflexivity |].
  destruct (negb (white_list_contains_addr (addr disc) (wl s))
            || white_list_is_empty (wl s)) eqn:G;
    [| left; reflexivity].
  destruct (open_packet (mfg_data fields) (mfg_data_len fields))
    as [[header body] |] eqn:O; [| left; reflexivity].
  destruct (Z.eqb_spec header REG_HEADER) as [Hh | Hh];
    [| left; reflexivity].
  right. subst header.
  split; [exact Hr |]. split; [exact Hi |].
  split.
  { apply orb_true_iff in G as [G | G]; [left | right; exact G].
    now apply negb_true_iff in G. }
  split; [exists body; reflexivity |].
  match goal with
  | |- context [read ?a ?i ?st] =>
      destruct (read_cases a i st) as [(u & H0 & Hn & ->) | ->]
  end.
  - left. exists u. split; [exact H0 |]. split; [exact Hn |].
    cbn.
    destruct (push_to_white_list u (addr disc) (wl s)) as [r w1].
    cbn. rewrite <- app_assoc. reflexivity.
  - right. run. rewrite <- app_assoc. reflexivity.
Qed.

Lemma disc_registering fields disc s :
  g_device_mode s = REGISTRATION_MODE ->
  ble_gap_event (BLE_GAP_EVENT_DISC fields disc) s
  = connect_if_interesting fields disc s.
Proof.
  intros H. unfold ble_gap_event, bind, get_mode.
  rewrite H. reflexivity.
Qed.

Lemma connect_failure_run status conn_handle conn_desc conn s :
  status <> 0 ->
  ble_gap_event (BLE_GAP_EVENT_CONNECT status conn_handle conn_desc conn)
                s
  = (Some tt,
     mk_gw (g_device_mode s) (g_ble_addr_type s)
           (snd (remove_from_white_list_by_addr
                   (ble_gap_conn_find conn conn_desc) (wl s)))
           (temp_data s) (calls s)).
Proof.
  intros H. unfold ble_gap_event.
  apply Z.eqb_neq in H. rewrite H. run.
  now destruct (remove_from_white_list_by_addr _ (wl s)).
Qed.


(** C6.  A connect event with a non-zero status returns after one
    [remove_from_white_list_by_addr], and does nothing else.  The
    address it removes is the one the connection descriptor holds after
    [ble_gap_conn_find].  When NimBLE knows a connection under the
    handle, that is the peer: under the invariant the white list then
    no longer contains it, and when the event before was an
    advertisement of that peer accepted in registration mode, the
    occupancy is back to what it was before the advertisement.  When
    NimBLE knows none, the address is what the descriptor, which the
    handler has not initialised, held before: every address that
    differs from it stays in the white list if it was there, the peer's
    address included. *)
Theorem connect_failure_removal status conn_handle conn_desc conn s :
  status <> 0 ->
  let r :=
    ble_gap_event
      (BLE_GAP_EVENT_CONNECT status conn_handle conn_desc conn) s in
  let s' := snd r in
  r = (Some tt,
       mk_gw (g_device_mode s) (g_ble_addr_type s)
             (snd (remove_from_white_list_by_addr
                     (ble_gap_conn_find conn conn_desc) (wl s)))
             (temp_data s) (calls s))
  /\ (forall peer,
         conn = Some peer ->
         wl s' = snd (remove_from_white_list_by_addr peer (wl s))
         /\ (wl_inv (wl s) ->
             white_list_contains_addr peer (wl s') = false)
         /\ (forall s0 fields disc,
                wl_inv (wl s0) ->
                g_device_mode s0 = REGISTRATION_MODE ->
                s = exec (ble_gap_event (BLE_GAP_EVENT_DISC fields disc))
                         s0 ->
                s <> s0 ->
                peer = addr disc ->
                occupancy (wl s') = occupancy (wl s0)))
  /\ (conn = None ->
      wl s' = snd (remove_from_white_list_by_addr conn_desc (wl s))
      /\ (wl_inv (wl s) ->
          forall a,
            addrs_are_equal conn_desc a = false ->
            white_list_contains_addr a (wl s')
            = white_list_contains_addr a (wl s))).
Proof.
  intros Hst r s'. subst s' r.
  rewrite (connect_failure_run _ _ _ _ _ Hst). cbn [snd wl].
  split; [reflexivity |]. split.
  - intros peer ->. cbn [ble_gap_conn_find].
    split; [reflexivity |].
    split; [apply remove_by_addr_gone |].
    intros s0 fields disc I Hm Hs Hne ->.
    unfold exec in Hs. rewrite (disc_registering _ _ _ Hm) in Hs.
    destruct (connect_if_interesting_cases fields disc s0)
      as [H | (_ & _ & Hg & _ & [(u & _ & _ & Hx) | Hx])];
      rewrite ?H, ?Hx in Hs; cbn [snd] in Hs.
    + contradiction.
    + rewrite Hs. cbn [wl]. now apply push_remove_restores.
    + rewrite Hs. cbn [wl]. now rewrite remove_gated_nothing.
  - intros ->. cbn [ble_gap_conn_find].
    split; [reflexivity |].
    intros I a Ha. now apply remove_by_addr_other.
Qed.

(** C8.  A long press in the unspecified (idle) mode with an empty
    white list returns with nothing changed.  With a white list that is
    initialised, satisfies the invariant and is not empty, the handler
    sets deletion mode and turns the LED on, and then
    [get_addr_white_list] writes the first address past the end of its
    block, which has as many bytes as the white list has entries: the
    run leaves defined behaviour before [ble_gap_wl_set] and
    [ble_gap_disc] are reached. *)
Theorem long_press_in_idle s :
  g_device_mode s = UNSPECIFIED_MODE ->
  (white_list_is_empty (wl s) = true ->
   on_long_button_press s = (Some tt, s))
  /\ (white_list_is_empty (wl s) = false ->
      wl_is_initialised (wl s) = true ->
      wl_inv (wl s) ->
      (exists a rest,
          occupied_addrs (white_list (wl s)) = a :: rest
          /\ get_addr_white_list (wl s)
             = export_overflow (white_list_len (wl s)) [] a)
      /\ on_long_button_press s
         = (None,
            mk_gw DELETION_MODE (g_ble_addr_type s) (wl s) (temp_data s)
                  (calls s
                   ++ issued_with
                        (wl s)
                        [led_turn_on;
                         undefined_behaviour heap_overflow]))).
Proof.
  intros Hm. unfold on_long_button_press. split.
  - intros He. run. rewrite Hm, He. cbn. now destruct s.
  - intros He Hi I.
    assert (Hl : white_list_len (wl s) <> 0).
    { unfold white_list_is_empty in He. now apply Z.eqb_neq in He. }
    destruct (export_overflows _ I Hi Hl) as (a & rest & Ho & Hx).
    split; [exists a, rest; split; assumption |].
    unfold wl_export. run. rewrite Hm, He. cbn. rewrite Hx. run.
    rewrite <- !app_assoc. reflexivity.
Qed.

(** C10.  A medium press in deletion mode and a long press in
    registration mode leave the whole state as it was: mode, white
    list, stored sample, and calls issued. *)
Theorem press_in_other_mode s :
  (g_device_mode s = DELETION_MODE ->
   exec on_medium_button_press s = s)
  /\ (g_device_mode s = REGISTRATION_MODE ->
      exec on_long_button_press s = s).
Proof.
  split; intros Hm.
  - unfold on_medium_button_press. run. rewrite Hm. reflexivity.
  - unfold on_long_button_press. run. rewrite Hm. reflexivity.
Qed.

End Handlers.
End GatewayFacts.

(* ================================================================= *)
(** * The theorems at the sample inputs *)
(* ================================================================= *)

Module SampleRuns.
Import IEEE Analysis WhiteList Registry AppPacket Gateway Samples Trace.
Import WhiteListFacts GatewayFacts.


(** The registration of the pulse oximeter is accepted; the connect
    then fails while NimBLE knows no connection under the handle and
    the handler's descriptor holds zeroes: the entry stays. *)
Lemma connect_failure_removal_witness :
  let s0 := gw_registering_empty in
  let s :=
    @exec unit
      (@ble_gap_event sample_headers
         (BLE_GAP_EVENT_DISC enroll_fields enroll_desc)) s0 in
  let s' :=
    snd (@ble_gap_event sample_headers
           (BLE_GAP_EVENT_CONNECT 2 0 zero_addr None) s) in
  2 <> 0
  /\ wl_inv (wl s)
  /\ addrs_are_equal zero_addr (addr enroll_desc) = false
  /\ white_list_contains_addr (addr enroll_desc) (wl s) = true
  /\ white_list_contains_addr (addr enroll_desc) (wl s') = true
  /\ occupancy (wl s') <> occupancy (wl s0).
Proof.
  intros s0 s s'.
  assert (H : 2 <> 0) by lia.
  assert (I : wl_inv (wl s)) by exact wl_sample_inv.
  assert (Hc : white_list_contains_addr (addr enroll_desc) (wl s')
               = white_list_contains_addr (addr enroll_desc) (wl s)).
  { exact (proj2 (proj2 (proj2 (@connect_failure_removal
                                  sample_headers 2 0 zero_addr None s H))
                          eq_refl)
                 I (addr enroll_desc) eq_refl). }
  split; [exact H |]. split; [exact I |].
  split; [reflexivity |]. split; [reflexivity |].
  split; [rewrite Hc; reflexivity |].
  intros E. vm_compute in E. discriminate E.
Defined.

Lemma long_press_in_idle_witness :
  (g_device_mode gw_idle_empty = UNSPECIFIED_MODE
   /\ white_list_is_empty (wl gw_idle_empty) = true
   /\ on_long_button_press gw_idle_empty = (Some tt, gw_idle_empty))
  /\ (g_device_mode gw_idle = UNSPECIFIED_MODE
      /\ white_list_is_empty (wl gw_idle) = false
      /\ wl_is_initialised (wl gw_idle) = true
      /\ wl_inv (wl gw_idle)
      /\ on_long_button_press gw_idle
         = (None,
            mk_gw DELETION_MODE 0 wl_sample (S754_zero false)
                  (issued_with
                     wl_sample
                     [led_turn_on; undefined_behaviour heap_overflow]))).
Proof.
  split.
  - split; [reflexivity |]. split; [reflexivity |].
    apply (proj1 (long_press_in_idle gw_idle_empty eq_refl)).
    reflexivity.
  - split; [reflexivity |]. split; [reflexivity |].
    split; [reflexivity |]. split; [exact wl_sample_inv |].
    exact (proj2 (proj2 (long_press_in_idle gw_idle eq_refl)
                        eq_refl eq_refl wl_sample_inv)).
Defined.

Lemma press_in_other_mode_witness :
  g_device_mode gw_deleting = DELETION_MODE
  /\ exec on_medium_button_press gw_deleting = gw_deleting.
Proof.
  split; [reflexivity |].
  apply (proj1 (press_in_other_mode gw_deleting)).
  reflexivity.
Defined.

End SampleRuns.

(* ================================================================= *)
(** * More on the white list: lifecycle, lookup, removal, export *)
(* ================================================================= *)

Module WhiteListMore.
Import WhiteList Registry WhiteListFacts.

Lemma bytes_eqb_eq (l1 l2 : list Z) : bytes_eqb l1 l2 = true <-> l1 = l2.
Proof.
  revert l2. induction l1 as [| x l1 IH]; intros [| y l2]; cbn;
    split; intros H; try discriminate; try reflexivity.
  - apply andb_true_iff in H as [H1 H2]. apply Z.eqb_eq in H1.
    apply IH in H2. congruence.
  - injection H as -> ->. rewrite Z.eqb_refl. cbn. now apply IH.
Qed.

Lemma addrs_are_equal_iff (a b : ble_addr_t) :
  addrs_are_equal a b = true <->
  addr_type a = addr_type b
  /\ firstn 6 (addr_val a) = firstn 6 (addr_val b).
Proof.
  unfold addrs_are_equal.
  destruct (Z.eqb_spec (addr_type a) (addr_type b)) as [E | E].
  - destruct (bytes_eqb (firstn 6 (addr_val a)) (firstn 6 (addr_val b)))
             eqn:B.
    + apply bytes_eqb_eq in B. tauto.
    + split; [discriminate |]. intros [_ H]. apply bytes_eqb_eq in H.
      congruence.
  - split; [discriminate | tauto].
Qed.

(** X1.  [addrs_are_equal] is an equivalence: it holds exactly when the
    two addresses have the same type and the same first six bytes, so it
    is reflexive, symmetric and transitive, and bytes after the sixth
    play no part. *)
Theorem addrs_are_equal_equivalence (a b c : ble_addr_t) :
  (addrs_are_equal a b = true <->
   addr_type a = addr_type b
   /\ firstn 6 (addr_val a) = firstn 6 (addr_val b))
  /\ addrs_are_equal a a = true
  /\ addrs_are_equal a b = addrs_are_equal b a
  /\ (addrs_are_equal a b = true -> addrs_are_equal b c = true ->
      addrs_are_equal a c = true).
Proof.
  split; [apply addrs_are_equal_iff |].
  split; [apply addrs_are_equal_refl |].
  split; [apply addrs_are_equal_sym |].
  intros H1 H2. apply addrs_are_equal_iff in H1 as [T1 V1].
  apply addrs_are_equal_iff in H2 as [T2 V2].
  apply addrs_are_equal_iff. split; congruence.
Qed.

Lemma addrs_are_equal_equivalence_witness :
  addrs_are_equal sample_addr (mk_addr 1 [1; 2; 3; 4; 5; 6; 7]) = true
  /\ addrs_are_equal (mk_addr 1 [1; 2; 3; 4; 5; 6; 7])
                     (mk_addr 1 [1; 2; 3; 4; 5; 6; 8]) = true
  /\ addrs_are_equal sample_addr (mk_addr 1 [1; 2; 3; 4; 5; 6; 8]) = true.
Proof.
  assert (H1 : addrs_are_equal sample_addr
                               (mk_addr 1 [1; 2; 3; 4; 5; 6; 7]) = true)
    by reflexivity.
  assert (H2 : addrs_are_equal (mk_addr 1 [1; 2; 3; 4; 5; 6; 7])
                               (mk_addr 1 [1; 2; 3; 4; 5; 6; 8]) = true)
    by reflexivity.
  split; [exact H1 |]. split; [exact H2 |].
  exact (proj2 (proj2 (proj2 (addrs_are_equal_equivalence
                                sample_addr
                                (mk_addr 1 [1; 2; 3; 4; 5; 6; 7])
                                (mk_addr 1 [1; 2; 3; 4; 5; 6; 8]))))
               H1 H2).
Defined.

(** ** Lifecycle *)

Lemma inv_length_bound s :
  wl_inv s -> wl_is_initialised s = true -> 0 <= white_list_len s <= 3.
Proof.
  intros (Hl & Hc & _) Hi. rewrite (Hc Hi).
  pose proof (count_occupied_range (white_list s)).
  unfold white_list_size in Hl. lia.
Qed.

(** X2.  [init_white_list] fails exactly when the white list is already
    initialised and [deinit_white_list] exactly when it is not, a failure
    leaving the state as it was; neither writes the table; and on a
    white list that is initialised and satisfies the invariant,
    de-initialising and initialising again gives back the very same
    state, the length being recomputed from the table. *)
Theorem init_deinit_lifecycle (s : wl_state) :
  (fst (init_white_list s) = ESP_FAIL <-> wl_is_initialised s = true)
  /\ (fst (init_white_list s) = ESP_FAIL -> snd (init_white_list s) = s)
  /\ (fst (deinit_white_list s) = ESP_FAIL <-> wl_is_initialised s = false)
  /\ (fst (deinit_white_list s) = ESP_FAIL -> snd (deinit_white_list s) = s)
  /\ white_list (snd (init_white_list s)) = white_list s
  /\ white_list (snd (deinit_white_list s)) = white_list s
  /\ (wl_inv s -> wl_is_initialised s = true ->
      init_white_list (snd (deinit_white_list s)) = (ESP_OK, s)).
Proof.
  unfold init_white_list, deinit_white_list.
  destruct s as [i n wl]. cbn [wl_is_initialised white_list_len white_list].
  destruct i; cbn [negb fst snd wl_is_initialised white_list];
    (split; [split; congruence |]);
    (split; [congruence |]);
    (split; [split; congruence |]);
    (split; [congruence |]);
    (split; [reflexivity |]);
    (split; [reflexivity |]);
    intros I Hi; try discriminate.
  pose proof (inv_length_bound _ I Hi) as Hb.
  destruct I as (Hl & Hc & _). cbn in Hl, Hc, Hb.
  unfold get_white_list_len. cbn [white_list].
  specialize (Hc eq_refl).
  rewrite count_loop_spec by lia.
  rewrite <- Hc. reflexivity.
Qed.

Lemma init_deinit_lifecycle_witness :
  wl_inv wl_sample
  /\ wl_is_initialised wl_sample = true
  /\ init_white_list (snd (deinit_white_list wl_sample))
     = (ESP_OK, wl_sample).
Proof.
  split; [exact wl_sample_inv |]. split; [reflexivity |].
  apply (proj2 (proj2 (proj2 (proj2 (proj2 (proj2
           (init_deinit_lifecycle wl_sample)))))) wl_sample_inv eq_refl).
Defined.

(** X3.  After a reset of ordinary memory (flag clear, length 0) with a
    table of [white_list_size] slots kept in RTC memory,
    [init_white_list] succeeds, leaves the table as it is and sets the
    length to the number of occupied slots; the invariant holds again
    when the table's occupied addresses and its uuids are distinct. *)
Theorem init_after_sleep (table : list device_data_t) :
  Z.of_nat (length table) = white_list_size ->
  init_white_list (mk_wl false 0 table)
  = (ESP_OK, mk_wl true (count_occupied table) table)
  /\ (addrs_unique table -> NoDup (map device_uuid table) ->
      wl_inv (snd (init_white_list (mk_wl false 0 table)))).
Proof.
  intros Hl. unfold init_white_list, get_white_list_len.
  cbn [wl_is_initialised white_list].
  pose proof (count_occupied_range table) as Hr.
  unfold white_list_size in Hl.
  rewrite count_loop_spec by lia. cbn [Z.add].
  split; [reflexivity |].
  intros Hu Hd. cbn [snd]. unfold wl_inv.
  cbn [wl_is_initialised white_list_len white_list]. auto.
Qed.

Lemma init_after_sleep_witness :
  Z.of_nat (length (white_list wl_sample)) = white_list_size
  /\ init_white_list (mk_wl false 0 (white_list wl_sample))
     = (ESP_OK, wl_sample).
Proof.
  split; [reflexivity |].
  exact (proj1 (init_after_sleep (white_list wl_sample) eq_refl)).
Defined.

(** ** Removal *)

Lemma remove_loop_none_iff hit wl :
  remove_loop hit wl = None <->
  forall d, In d wl -> addr_is_empty d = false -> hit d = false.
Proof.
  rewrite remove_loop_None. split.
  - intros H d Hd He. apply not_true_is_false. intros Hh.
    assert (existsb (fun d => negb (addr_is_empty d) && hit d) wl = true)
      as C.
    { apply existsb_exists. exists d. split; [exact Hd |].
      now rewrite He, Hh. }
    congruence.
  - intros H. apply not_true_is_false. intros E.
    apply existsb_exists in E as (d & Hd & E).
    apply andb_true_iff in E as [E1 E2]. apply negb_true_iff in E1.
    specialize (H d Hd E1). congruence.
Qed.

(** What either removal does, [hit] being its test on a slot. *)
Lemma remove_with_outcome hit s :
  let no_hit :=
    forall d, In d (white_list s) ->
              addr_is_empty d = false -> hit d = false in
  (wl_is_initialised s = false -> remove_with hit s = (ESP_FAIL, s))
  /\ (white_list_len s = 0 -> remove_with hit s = (ESP_FAIL, s))
  /\ (no_hit -> remove_with hit s = (ESP_FAIL, s))
  /\ (wl_is_initialised s = true -> white_list_len s <> 0 -> ~ no_hit ->
      exists pre d post,
        white_list s = pre ++ d :: post
        /\ addr_is_empty d = false
        /\ hit d = true
        /\ (forall x, In x pre -> addr_is_empty x = false -> hit x = false)
        /\ remove_with hit s
           = (ESP_OK,
              mk_wl true (u8 (white_list_len s - 1))
                    (pre ++ mk_device (device_uuid d) (device_addr d) true
                         :: post)))
  /\ (fst (remove_with hit s) = ESP_FAIL -> snd (remove_with hit s) = s).
Proof.
  intros no_hit. unfold remove_with.
  split; [intros ->; reflexivity |].
  split; [intros ->; now destruct (negb (wl_is_initialised s)) |].
  split.
  { intros H. apply remove_loop_none_iff in H. rewrite H.
    destruct (negb (wl_is_initialised s)); [reflexivity |].
    now destruct (white_list_len s =? 0). }
  split.
  - intros Hi Hlen Hhit. rewrite Hi. cbn [negb].
    apply Z.eqb_neq in Hlen. rewrite Hlen.
    destruct (remove_loop hit (white_list s)) as [wl' |] eqn:R;
      [| exfalso; apply Hhit;
         exact (proj1 (remove_loop_none_iff hit (white_list s)) R)].
    apply remove_loop_Some in R
      as (pre & d & post & Hwl & -> & He & Hh & Hpre).
    exists pre, d, post.
    split; [exact Hwl |]. split; [exact He |]. split; [exact Hh |].
    split; [| reflexivity].
    intros x Hx Ex. specialize (Hpre x Hx). rewrite Ex in Hpre.
    exact Hpre.
  - destruct (negb (wl_is_initialised s)); [reflexivity |].
    destruct (white_list_len s =? 0); [reflexivity |].
    destruct (remove_loop hit (white_list s)); [discriminate |].
    reflexivity.
Qed.

(** X4.  [remove_from_white_list_by_addr] fails, leaving the state as it
    was, when the white list is not initialised, when its length is 0,
    and when no occupied slot holds the address; otherwise it succeeds:
    the first occupied slot holding the address is marked empty with its
    uuid and its address bytes left in place, the length drops by one and
    every other slot is as before. *)
Theorem remove_by_addr_outcome (addr : ble_addr_t) (s : wl_state) :
  let no_holder :=
    forall d, In d (white_list s) ->
              addr_is_empty d = false ->
              addrs_are_equal (device_addr d) addr = false in
  (wl_is_initialised s = false ->
   remove_from_white_list_by_addr addr s = (ESP_FAIL, s))
  /\ (white_list_len s = 0 ->
      remove_from_white_list_by_addr addr s = (ESP_FAIL, s))
  /\ (no_holder -> remove_from_white_list_by_addr addr s = (ESP_FAIL, s))
  /\ (wl_is_initialised s = true -> white_list_len s <> 0 ->
      ~ no_holder ->
      exists pre d post,
        white_list s = pre ++ d :: post
        /\ addr_is_empty d = false
        /\ addrs_are_equal (device_addr d) addr = true
        /\ (forall x, In x pre -> addr_is_empty x = false ->
                      addrs_are_equal (device_addr x) addr = false)
        /\ remove_from_white_list_by_addr addr s
           = (ESP_OK,
              mk_wl true (u8 (white_list_len s - 1))
                    (pre ++ mk_device (device_uuid d) (device_addr d) true
                         :: post)))
  /\ (fst (remove_from_white_list_by_addr addr s) = ESP_FAIL ->
      snd (remove_from_white_list_by_addr addr s) = s).
Proof.
  exact (remove_with_outcome
           (fun d => addrs_are_equal (device_addr d) addr) s).
Qed.

Lemma remove_by_addr_outcome_witness :
  wl_is_initialised wl_sample = true
  /\ white_list_len wl_sample <> 0
  /\ exists pre d post,
      white_list wl_sample = pre ++ d :: post
      /\ remove_from_white_list_by_addr sample_addr wl_sample
         = (ESP_OK,
            mk_wl true (u8 (white_list_len wl_sample - 1))
                  (pre ++ mk_device (device_uuid d) (device_addr d) true
                       :: post)).
Proof.
  split; [reflexivity |]. split; [discriminate |].
  pose proof (remove_by_addr_outcome sample_addr wl_sample) as H.
  cbv zeta in H. destruct H as (_ & _ & _ & H & _).
  destruct H as (pre & d & post & Hw & _ & _ & _ & Hr).
  - reflexivity.
  - discriminate.
  - intros N.
    specialize (N (mk_device (BLE_UUID16_INIT 0x1822) sample_addr false)).
    cbn in N. assert (true = false) by (apply N; tauto). discriminate.
  - exists pre, d, post. split; assumption.
Defined.



(** ** Queries and the operations they announce *)

(** X6.  Each query predicts its operation: [uuid_is_interesting] is true
    exactly when [push_to_white_list] of that uuid (with any address)
    succeeds, and [white_list_contains_addr] is true exactly when
    [remove_from_white_list_by_addr] of that address succeeds. *)
Theorem queries_predict_operations
        (uuid : ble_uuid16_t) (addr : ble_addr_t) (s : wl_state) :
  (uuid_is_interesting uuid s = true <->
   fst (push_to_white_list uuid addr s) = ESP_OK)
  /\ (white_list_contains_addr addr s = true <->
      fst (remove_from_white_list_by_addr addr s) = ESP_OK).
Proof.
  split.
  - unfold uuid_is_interesting, push_to_white_list.
    destruct (negb (wl_is_initialised s)); [split; discriminate |].
    destruct (white_list_len s =? white_list_size); [split; discriminate |].
    destruct (push_loop (white_list s) uuid addr) eqn:P; cbn [fst].
    + split; [reflexivity |]. intros _.
      apply not_false_is_true. intros E.
      apply (proj2 (push_loop_None (white_list s) uuid addr)) in E.
      congruence.
    + apply push_loop_None in P. rewrite P. split; discriminate.
  - unfold white_list_contains_addr, remove_from_white_list_by_addr,
      remove_with.
    destruct (negb (wl_is_initialised s)); [split; discriminate |].
    destruct (white_list_len s =? 0); [split; discriminate |].
    destruct (remove_loop _ (white_list s)) eqn:R; cbn [fst].
    + split; [reflexivity |]. intros _.
      apply not_false_is_true. intros E.
      apply (proj2 (remove_loop_None _ (white_list s))) in E.
      congruence.
    + apply remove_loop_None in R. rewrite R. split; discriminate.
Qed.

(** ** Insertion, then lookup *)

Lemma push_ok_inv uuid addr s s' :
  push_to_white_list uuid addr s = (ESP_OK, s') ->
  wl_is_initialised s = true
  /\ white_list_len s <> white_list_size
  /\ exists wl', push_loop (white_list s) uuid addr = Some wl'
                 /\ s' = mk_wl true (u8 (white_list_len s + 1)) wl'.
Proof.
  unfold push_to_white_list.
  destruct (wl_is_initialised s) eqn:E; cbn [negb]; [| discriminate].
  destruct (Z.eqb_spec (white_list_len s) white_list_size);
    [discriminate |].
  destruct (push_loop (white_list s) uuid addr) as [wl' |];
    [| discriminate].
  intros H. injection H as <-. split; [reflexivity |].
  split; [assumption |]. exists wl'. split; reflexivity.
Qed.

(** X7.  After a successful [push_to_white_list] on a white list that
    satisfies the invariant, the address is found by
    [white_list_contains_addr], the white list is not empty, the length
    has grown by exactly one and does not exceed the size, and the uuid
    is no longer interesting. *)
Theorem push_then_lookup uuid addr s s' :
  wl_inv s ->
  push_to_white_list uuid addr s = (ESP_OK, s') ->
  white_list_contains_addr addr s' = true
  /\ white_list_is_empty s' = false
  /\ white_list_len s' = white_list_len s + 1
  /\ white_list_len s' <= white_list_size
  /\ uuid_is_interesting uuid s' = false.
Proof.
  intros I H. apply push_ok_inv in H as (Hi & Hn & wl' & P & ->).
  pose proof (inv_length_bound _ I Hi) as Hb.
  destruct I as (Hl & Hc & Hu & Hd).
  unfold white_list_size in *.
  assert (Hlen : u8 (white_list_len s + 1) = white_list_len s + 1)
    by (unfold u8; apply Z.mod_small; lia).
  unfold white_list_contains_addr, white_list_is_empty,
    uuid_is_interesting.
  cbn [wl_is_initialised white_list_len white_list negb]. rewrite Hlen.
  destruct (Z.eqb_spec (white_list_len s + 1) 0); [lia |].
  split.
  { change (existsb (holds_addr addr) wl' = true).
    rewrite (push_loop_holders _ _ _ _ addr P), addrs_are_equal_refl.
    apply orb_true_r. }
  split; [reflexivity |]. split; [reflexivity |]. split; [lia |].
  destruct (white_list_len s + 1 =? white_list_size); [reflexivity |].
  apply push_loop_Some in P as (pre & d & post & Hw & -> & He & Hq & _).
  apply not_true_is_false. intros E.
  apply existsb_exists in E as (x & Hx & E).
  apply andb_true_iff in E as [E1 E2]. apply uuids16_are_equal_eq in E2.
  rewrite Hw, map_app in Hd. cbn [map] in Hd.
  apply NoDup_remove_2 in Hd.
  apply in_app_or in Hx as [Hx | [<- | Hx]].
  - apply Hd. rewrite Hq, <- E2. apply in_or_app. left. now apply in_map.
  - discriminate E1.
  - apply Hd. rewrite Hq, <- E2. apply in_or_app. right. now apply in_map.
Qed.

Lemma push_then_lookup_witness :
  wl_inv wl_ready
  /\ white_list_contains_addr sample_addr wl_sample = true
  /\ uuid_is_interesting (BLE_UUID16_INIT 0x1822) wl_sample = false.
Proof.
  split; [exact wl_ready_inv |].
  destruct (push_then_lookup (BLE_UUID16_INIT 0x1822) sample_addr
                             wl_ready wl_sample wl_ready_inv eq_refl)
    as (H1 & _ & _ & _ & H5).
  split; assumption.
Defined.

Lemma push_loop_app pre d post uuid addr :
  (forall x, In x pre ->
             addr_is_empty x
             && uuids16_are_equal (device_uuid x) uuid = false) ->
  addr_is_empty d = true -> device_uuid d = uuid ->
  push_loop (pre ++ d :: post) uuid addr
  = Some (pre ++ mk_device uuid addr false :: post).
Proof.
  intros Hpre He Hu. induction pre as [| x pre IH]; cbn.
  - rewrite He, Hu. cbn.
    rewrite (proj2 (uuids16_are_equal_eq uuid uuid) eq_refl). reflexivity.
  - rewrite (Hpre x (or_introl eq_refl)).
    rewrite IH by (intros y Hy; apply Hpre; now right). reflexivity.
Qed.

Lemma remove_by_uuid16_ok uuid s s1 :
  remove_from_white_list_by_uuid16 uuid s = (ESP_OK, s1) ->
  wl_is_initialised s = true
  /\ white_list_len s <> 0
  /\ exists pre d post,
      white_list s = pre ++ d :: post
      /\ addr_is_empty d = false
      /\ device_uuid d = uuid
      /\ s1 = mk_wl true (u8 (white_list_len s - 1))
                    (pre ++ mk_device uuid (device_addr d) true :: post).
Proof.
  unfold remove_from_white_list_by_uuid16, remove_with.
  destruct (wl_is_initialised s) eqn:E; cbn [negb]; [| discriminate].
  destruct (Z.eqb_spec (white_list_len s) 0); [discriminate |].
  destruct (remove_loop _ (white_list s)) as [wl' |] eqn:R;
    [| discriminate].
  intros H. injection H as <-.
  apply remove_loop_Some in R as (pre & d & post & Hw & -> & He & Hh & _).
  apply uuids16_are_equal_eq in Hh.
  split; [reflexivity |]. split; [assumption |].
  exists pre, d, post. rewrite Hh. auto.
Qed.

(** X8.  Removing a category and inserting it again restores the
    occupancy: after a successful [remove_from_white_list_by_uuid16] on
    a white list that satisfies the invariant the uuid is interesting
    again, and [push_to_white_list] of that uuid with any address
    succeeds, fills the slot that was cleared and brings the flags and
    the length back to what they were before the removal. *)
Theorem remove_then_reinsert uuid addr s s1 :
  wl_inv s ->
  remove_from_white_list_by_uuid16 uuid s = (ESP_OK, s1) ->
  uuid_is_interesting uuid s1 = true
  /\ fst (push_to_white_list uuid addr s1) = ESP_OK
  /\ occupancy (snd (push_to_white_list uuid addr s1)) = occupancy s
  /\ white_list_contains_addr addr (snd (push_to_white_list uuid addr s1))
     = true.
Proof.
  intros I H.
  apply remove_by_uuid16_ok in H
    as (Hi & Hn & pre & d & post & Hw & He & Hu & ->).
  pose proof (inv_length_bound _ I Hi) as Hb.
  destruct I as (Hl & Hc & Hun & Hd).
  assert (Hnd : forall x, In x (pre ++ post) -> device_uuid x <> uuid).
  { intros x Hx Ux. rewrite Hw, map_app in Hd. cbn [map] in Hd.
    apply NoDup_remove_2 in Hd. apply Hd.
    rewrite <- map_app, Hu, <- Ux. now apply in_map. }
  assert (Hlen : u8 (white_list_len s - 1) = white_list_len s - 1)
    by (unfold u8; apply Z.mod_small; lia).
  assert (P : push_loop (pre ++ mk_device uuid (device_addr d) true :: post)
                        uuid addr
              = Some (pre ++ mk_device uuid addr false :: post)).
  { apply push_loop_app; try reflexivity.
    intros x Hx. apply andb_false_iff. right.
    apply not_true_is_false. intros E. apply uuids16_are_equal_eq in E.
    apply (Hnd x); [apply in_or_app; now left | exact E]. }
  assert (Hint : uuid_is_interesting
                   uuid
                   (mk_wl true (u8 (white_list_len s - 1))
                          (pre ++ mk_device uuid (device_addr d) true
                               :: post)) = true).
  { unfold uuid_is_interesting.
    cbn [wl_is_initialised white_list_len white_list negb].
    rewrite Hlen. unfold white_list_size.
    destruct (Z.eqb_spec (white_list_len s - 1) 3); [lia |].
    apply not_false_is_true. intros E.
    apply (proj2 (push_loop_None _ uuid addr)) in E. congruence. }
  split; [exact Hint |].
  unfold push_to_white_list.
  cbn [wl_is_initialised white_list_len white_list negb].
  rewrite Hlen. unfold white_list_size.
  destruct (Z.eqb_spec (white_list_len s - 1) 3); [lia |].
  rewrite P. cbn [fst snd].
  assert (Hlen' : u8 (white_list_len s - 1 + 1) = white_list_len s)
    by (unfold u8; rewrite Z.mod_small; lia).
  split; [reflexivity |]. split.
  - unfold occupancy. cbn [wl_is_initialised white_list_len white_list].
    rewrite Hlen', Hi, Hw, !map_app. cbn [map device_uuid addr_is_empty].
    rewrite He, Hu. reflexivity.
  - unfold white_list_contains_addr.
    cbn [wl_is_initialised white_list_len white_list negb].
    rewrite Hlen'. destruct (Z.eqb_spec (white_list_len s) 0); [lia |].
    rewrite existsb_app. cbn [existsb device_addr addr_is_empty negb].
    rewrite addrs_are_equal_refl. cbn. apply orb_true_r.
Qed.

Lemma remove_then_reinsert_witness :
  wl_inv wl_sample
  /\ remove_from_white_list_by_uuid16 (BLE_UUID16_INIT 0x1822) wl_sample
     = (ESP_OK, snd (remove_from_white_list_by_uuid16
                       (BLE_UUID16_INIT 0x1822) wl_sample))
  /\ occupancy
       (snd (push_to_white_list
               (BLE_UUID16_INIT 0x1822) other_addr
               (snd (remove_from_white_list_by_uuid16
                       (BLE_UUID16_INIT 0x1822) wl_sample))))
     = occupancy wl_sample.
Proof.
  split; [exact wl_sample_inv |]. split; [reflexivity |].
  exact (proj1 (proj2 (proj2
           (remove_then_reinsert (BLE_UUID16_INIT 0x1822) other_addr
                                 wl_sample _ wl_sample_inv eq_refl)))).
Defined.

(** ** The exported addresses *)

(** X9.  [get_addr_white_list] returns [ESP_FAIL], with the pointer not
    assigned, exactly when the white list is not initialised or its
    length is 0.  Otherwise it allocates a block of [white_list_len]
    bytes and writes to it the addresses of the occupied slots, in slot
    order, each of them [sizeof (ble_addr_t)], seven, bytes long.  A
    call that returns has written all of them, inside the block; a call
    that overflows has written the first ones and was writing the next
    past the end of the block.  Under the invariant, where
    [white_list_len] is the number of addresses, every export of a white
    list that is not empty overflows, at the first address. *)
Theorem get_addr_white_list_export (s : wl_state) :
  (get_addr_white_list s = export_fail <->
   wl_is_initialised s = false \/ white_list_len s = 0)
  /\ (forall size block,
         get_addr_white_list s = export_ok size block ->
         size = white_list_len s
         /\ block = occupied_addrs (white_list s)
         /\ (0 <= size < 256 ->
             sizeof_ble_addr_t * Z.of_nat (length block) <= size))
  /\ (forall size block next,
         get_addr_white_list s = export_overflow size block next ->
         size = white_list_len s
         /\ (exists rest,
                occupied_addrs (white_list s) = block ++ next :: rest)
         /\ size < sizeof_ble_addr_t * (Z.of_nat (length block) + 1))
  /\ (wl_inv s -> wl_is_initialised s = true -> white_list_len s <> 0 ->
      exists a rest,
        occupied_addrs (white_list s) = a :: rest
        /\ get_addr_white_list s
           = export_overflow (white_list_len s) [] a).
Proof.
  split; [| split; [| split]]; [| | | apply export_overflows].
  - unfold get_addr_white_list.
    destruct (wl_is_initialised s); cbn [negb]; [| split; auto].
    destruct (Z.eqb_spec (white_list_len s) 0) as [Hz | Hz];
      [split; auto |].
    split.
    + intros H. now apply addr_loop_not_fail in H.
    + intros [H | H]; [discriminate | contradiction].
  - intros size block. unfold get_addr_white_list.
    destruct (negb (wl_is_initialised s)); [discriminate |].
    destruct (white_list_len s =? 0); [discriminate |].
    intros H. destruct (addr_loop_ok _ _ _ _ _ _ H) as [-> ->].
    split; [reflexivity |]. split; [reflexivity |].
    intros Hs.
    refine (proj1 (addr_loop_bytes (white_list s) (white_list_len s) 0 []
                                   _)
                  eq_refl _ _ _ H);
      cbn [length]; unfold sizeof_ble_addr_t; lia.
  - intros size block next. unfold get_addr_white_list.
    destruct (negb (wl_is_initialised s)); [discriminate |].
    destruct (white_list_len s =? 0); [discriminate |].
    intros H.
    destruct (addr_loop_overflow _ _ _ _ _ _ _ H)
      as [-> (mid & rest & -> & E)].
    split; [reflexivity |].
    split; [exists rest; exact E |].
    refine (proj2 (addr_loop_bytes (white_list s) (white_list_len s) 0 []
                                   _)
                  _ _ H).
    cbn [length]. lia.
Qed.

Lemma get_addr_white_list_export_witness :
  wl_inv wl_sample
  /\ wl_is_initialised wl_sample = true
  /\ white_list_len wl_sample <> 0
  /\ get_addr_white_list wl_sample = export_overflow 1 [] sample_addr.
Proof.
  assert (Hl : white_list_len wl_sample <> 0) by (cbn; lia).
  split; [exact wl_sample_inv |]. split; [reflexivity |].
  split; [exact Hl |].
  destruct (proj2 (proj2 (proj2 (get_addr_white_list_export wl_sample)))
                  wl_sample_inv eq_refl Hl)
    as (a & rest & Ho & Hx).
  rewrite Hx. f_equal. cbn in Ho. now injection Ho as <- _.
Defined.

(** ** No duplicate detection in the insertion itself *)

Lemma addrs_unique_around pre x post :
  addrs_unique (pre ++ x :: post) ->
  addr_is_empty x = false ->
  existsb (holds_addr (device_addr x)) pre = false
  /\ existsb (holds_addr (device_addr x)) post = false.
Proof.
  intros U Ex. induction pre as [| y pre IH]; cbn [app] in U.
  - destruct U as [U _]. split; [reflexivity | exact (U Ex)].
  - destruct U as [U1 U2]. destruct (IH U2) as [I1 I2].
    split; [| exact I2]. cbn [existsb]. rewrite I1, orb_false_r.
    unfold holds_addr. destruct (addr_is_empty y) eqn:Ey; [reflexivity |].
    cbn [negb andb]. specialize (U1 eq_refl).
    rewrite existsb_app in U1. apply orb_false_iff in U1 as [_ U1].
    cbn [existsb] in U1. apply orb_false_iff in U1 as [U1 _].
    unfold holds_addr in U1. rewrite Ex in U1. cbn in U1.
    rewrite addrs_are_equal_sym. exact U1.
Qed.

(** X10.  [push_to_white_list] does not look for the address among the
    occupied slots: on a white list that satisfies the invariant and
    already contains the address, inserting it under any interesting
    uuid succeeds and leaves two occupied slots holding the same
    address.  Distinctness of the addresses rests on the caller's
    test. *)
Theorem push_ungated_duplicates uuid addr s :
  wl_inv s ->
  white_list_contains_addr addr s = true ->
  uuid_is_interesting uuid s = true ->
  fst (push_to_white_list uuid addr s) = ESP_OK
  /\ ~ addrs_unique (white_list (snd (push_to_white_list uuid addr s))).
Proof.
  intros I Hc Hu.
  assert (Hok : fst (push_to_white_list uuid addr s) = ESP_OK).
  { unfold uuid_is_interesting, push_to_white_list in *.
    destruct (negb (wl_is_initialised s)); [discriminate |].
    destruct (white_list_len s =? white_list_size); [discriminate |].
    destruct (push_loop (white_list s) uuid addr) eqn:P; [reflexivity |].
    apply push_loop_None in P. congruence. }
  split; [exact Hok |].
  destruct (push_to_white_list uuid addr s) as [r s'] eqn:P.
  cbn [fst snd] in *. subst r.
  apply push_ok_inv in P as (Hi & Hn & wl' & P & ->). cbn [white_list].
  assert (Hold : existsb (holds_addr addr) (white_list s) = true).
  { unfold white_list_contains_addr in Hc. rewrite Hi in Hc.
    cbn [negb] in Hc.
    destruct (white_list_len s =? 0); [discriminate | exact Hc]. }
  apply push_loop_Some in P as (pre & d & post & Hw & -> & He & _ & _).
  intros U.
  destruct (addrs_unique_around
              pre (mk_device (device_uuid d) addr false) post U eq_refl)
    as [U1 U2].
  cbn [device_addr] in U1, U2.
  rewrite Hw, existsb_app in Hold. cbn [existsb] in Hold.
  rewrite U1, U2 in Hold. unfold holds_addr in Hold.
  rewrite He in Hold. discriminate Hold.
Qed.

Lemma push_ungated_duplicates_witness :
  wl_inv wl_sample
  /\ white_list_contains_addr sample_addr wl_sample = true
  /\ uuid_is_interesting (BLE_UUID16_INIT 0x1809) wl_sample = true
  /\ ~ addrs_unique
       (white_list (snd (push_to_white_list (BLE_UUID16_INIT 0x1809)
                                            sample_addr wl_sample))).
Proof.
  split; [exact wl_sample_inv |]. split; [reflexivity |].
  split; [reflexivity |].
  exact (proj2 (push_ungated_duplicates
                  (BLE_UUID16_INIT 0x1809) sample_addr wl_sample
                  wl_sample_inv eq_refl eq_refl)).
Defined.

End WhiteListMore.

(* ================================================================= *)
(** * More on the telemetry: classification by temperature, readings *)
(* ================================================================= *)

Module AnalysisMore.
Import IEEE Analysis Reading Telemetry IEEEFacts AnalysisFacts.

Lemma start_analysis_value t :
  valid_binary prec32 emax32 t = true ->
  is_finite t = true ->
  start_analysis t =
    if Qle_bool (F2Q t) 35 then VERY_CRITICAL
    else if Qle_bool (F2Q t) 36 then CRITICAL
    else if Qle_bool (F2Q t) 38 then NORMAL
    else CRITICAL.
Proof.
  intros V F. unfold start_analysis. rewrite (get_temp_score_value t V F).
  destruct (Qle_bool (F2Q t) 35); [vm_compute; reflexivity |].
  destruct (Qle_bool (F2Q t) 36); [vm_compute; reflexivity |].
  destruct (Qle_bool (F2Q t) 38); [vm_compute; reflexivity |].
  destruct (Qle_bool (F2Q t) 39); vm_compute; reflexivity.
Qed.

(** X11.  For every finite [float] sample [t], [start_analysis] returns
    VERY_CRITICAL when [t <= 35], CRITICAL when [35 < t <= 36], NORMAL
    when [36 < t <= 38] and CRITICAL when [t > 38]; it never returns
    UNDEFINED for a finite sample. *)
Theorem start_analysis_by_temperature (t : spec_float) :
  valid_binary prec32 emax32 t = true ->
  is_finite t = true ->
  ((F2Q t <= 35)%Q -> start_analysis t = VERY_CRITICAL)
  /\ ((35 < F2Q t)%Q /\ (F2Q t <= 36)%Q -> start_analysis t = CRITICAL)
  /\ ((36 < F2Q t)%Q /\ (F2Q t <= 38)%Q -> start_analysis t = NORMAL)
  /\ ((38 < F2Q t)%Q -> start_analysis t = CRITICAL)
  /\ start_analysis t <> UNDEFINED.
Proof.
  intros V F. rewrite (start_analysis_value t V F).
  split.
  { intros H. apply Qle_bool_iff in H. now rewrite H. }
  split.
  { intros [H1 H2]. apply Qle_bool_false_lt in H1.
    apply Qle_bool_iff in H2. now rewrite H1, H2. }
  split.
  { intros [H1 H2]. apply Qle_bool_false_lt in H1.
    apply Qle_bool_iff in H2. rewrite H2.
    destruct (Qle_bool (F2Q t) 35) eqn:E35.
    - apply (Qle_bool_mono _ 35 36 eq_refl) in E35. congruence.
    - now rewrite H1. }
  split.
  { intros H1. apply Qle_bool_false_lt in H1.
    destruct (Qle_bool (F2Q t) 35) eqn:E35.
    { apply (Qle_bool_mono _ 35 38 eq_refl) in E35. congruence. }
    destruct (Qle_bool (F2Q t) 36) eqn:E36.
    { apply (Qle_bool_mono _ 36 38 eq_refl) in E36. congruence. }
    now rewrite H1. }
  destruct (Qle_bool (F2Q t) 35), (Qle_bool (F2Q t) 36),
    (Qle_bool (F2Q t) 38); discriminate.
Qed.

Lemma start_analysis_by_temperature_witness :
  valid_binary prec32 emax32 float_38_5 = true
  /\ is_finite float_38_5 = true
  /\ (38 < F2Q float_38_5)%Q
  /\ start_analysis float_38_5 = CRITICAL.
Proof.
  assert (V : valid_binary prec32 emax32 float_38_5 = true)
    by (vm_compute; reflexivity).
  assert (H : (38 < F2Q float_38_5)%Q) by (vm_compute; reflexivity).
  split; [exact V |]. split; [reflexivity |]. split; [exact H |].
  exact (proj1 (proj2 (proj2 (proj2
           (start_analysis_by_temperature float_38_5 V eq_refl)))) H).
Defined.

(** X12.  On the values that are not finite: a NaN sample scores the
    sentinel [-1] and is the only sample classified UNDEFINED; plus
    infinity is CRITICAL and minus infinity VERY_CRITICAL. *)
Theorem start_analysis_undefined_iff_nan (t : spec_float) :
  valid_binary prec32 emax32 t = true ->
  (start_analysis t = UNDEFINED <-> t = S754_nan)
  /\ (get_temp_score t = -1 <-> t = S754_nan)
  /\ start_analysis (S754_infinity false) = CRITICAL
  /\ start_analysis (S754_infinity true) = VERY_CRITICAL.
Proof.
  intros V.
  assert (Hfin : is_finite t = true ->
                 start_analysis t <> UNDEFINED /\ get_temp_score t <> -1).
  { intros F. split.
    - rewrite (start_analysis_value t V F).
      destruct (Qle_bool (F2Q t) 35), (Qle_bool (F2Q t) 36),
        (Qle_bool (F2Q t) 38); discriminate.
    - rewrite (get_temp_score_value t V F).
      destruct (Qle_bool (F2Q t) 35), (Qle_bool (F2Q t) 36),
        (Qle_bool (F2Q t) 38), (Qle_bool (F2Q t) 39); discriminate. }
  split; [| split; [| split; vm_compute; reflexivity]].
  - destruct t as [s | [|] | | s m e].
    + destruct (Hfin eq_refl) as [H _]. split; [contradiction | discriminate].
    + split; [vm_compute; discriminate | discriminate].
    + split; [vm_compute; discriminate | discriminate].
    + split; [reflexivity | intros _; vm_compute; reflexivity].
    + destruct (Hfin eq_refl) as [H _]. split; [contradiction | discriminate].
  - destruct t as [s | [|] | | s m e].
    + destruct (Hfin eq_refl) as [_ H]. split; [contradiction | discriminate].
    + split; [vm_compute; discriminate | discriminate].
    + split; [vm_compute; discriminate | discriminate].
    + split; [reflexivity | intros _; vm_compute; reflexivity].
    + destruct (Hfin eq_refl) as [_ H]. split; [contradiction | discriminate].
Qed.

Lemma start_analysis_undefined_iff_nan_witness :
  valid_binary prec32 emax32 S754_nan = true
  /\ start_analysis S754_nan = UNDEFINED.
Proof.
  split; [reflexivity |].
  exact (proj2 (proj1 (start_analysis_undefined_iff_nan S754_nan eq_refl))
               eq_refl).
Defined.

(** ** Readings *)

Lemma value_agrees_all :
  forallb (fun msb => forallb (value_agrees msb) all_bytes) all_bytes = true.
Proof. vm_compute. reflexivity. Qed.

Lemma value_agrees_byte (msb lsb : Z) :
  0 <= msb < 256 -> 0 <= lsb < 256 ->
  (fixed_point_value msb lsb == signed_256 msb lsb # 256)%Q.
Proof.
  intros Hm Hl.
  pose proof value_agrees_all as H.
  rewrite forallb_forall in H.
  specialize (H msb (all_bytes_In msb Hm)).
  rewrite forallb_forall in H.
  specialize (H lsb (all_bytes_In lsb Hl)).
  apply Qeq_bool_iff. exact H.
Qed.

Lemma decoded_value (msb lsb : Z) :
  0 <= msb < 256 -> 0 <= lsb < 256 ->
  (F2Q (convert_temp_data_to_float msb lsb) == signed_256 msb lsb # 256)%Q.
Proof.
  intros Hm Hl.
  destruct (decode_agrees_true msb lsb (decode_agrees_byte msb lsb Hm Hl))
    as (_ & H & _).
  rewrite H. now apply value_agrees_byte.
Qed.

Lemma magnitude_256_range (msb lsb : Z) :
  0 <= lsb < 256 -> 0 <= magnitude_256 msb lsb < 32768.
Proof.
  intros Hl. unfold magnitude_256.
  pose proof (Z.mod_pos_bound msb 128). lia.
Qed.

(** X13.  A reading is the 15-bit number made of the low seven bits of
    the first byte and the eight bits of the second, in units of 1/256
    degree, negated when the top bit of the first byte is set: the
    decoded [float] is exactly that many 256ths, so it lies strictly
    between -128 and 128. *)
Theorem convert_temp_data_to_float_fixed_point (msb lsb : Z) :
  0 <= msb < 256 -> 0 <= lsb < 256 ->
  (F2Q (convert_temp_data_to_float msb lsb) == signed_256 msb lsb # 256)%Q
  /\ (- (128) < F2Q (convert_temp_data_to_float msb lsb))%Q
  /\ (F2Q (convert_temp_data_to_float msb lsb) < 128)%Q.
Proof.
  intros Hm Hl. pose proof (decoded_value msb lsb Hm Hl) as H.
  split; [exact H |].
  pose proof (magnitude_256_range msb lsb Hl) as Hr.
  assert (Hs : -32768 < signed_256 msb lsb < 32768)
    by (unfold signed_256; destruct (msb <? 128); lia).
  split; rewrite H; unfold Qlt; cbn; lia.
Qed.

Lemma convert_temp_data_to_float_fixed_point_witness :
  0 <= 37 < 256 /\ 0 <= 51 < 256
  /\ (F2Q (convert_temp_data_to_float 37 51) == 9523 # 256)%Q.
Proof.
  assert (Hm : 0 <= 37 < 256) by lia.
  assert (Hl : 0 <= 51 < 256) by lia.
  split; [exact Hm |]. split; [exact Hl |].
  rewrite (proj1 (convert_temp_data_to_float_fixed_point 37 51 Hm Hl)).
  vm_compute. reflexivity.
Defined.

Lemma testbit_7_all :
  forallb (fun b => Bool.eqb (Z.testbit b 7) (128 <=? b)) all_bytes = true.
Proof. vm_compute. reflexivity. Qed.

Lemma testbit_7_byte (b : Z) :
  0 <= b < 256 -> Z.testbit b 7 = (128 <=? b).
Proof.
  intros Hb. pose proof testbit_7_all as H.
  rewrite forallb_forall in H.
  apply Bool.eqb_prop. exact (H b (all_bytes_In b Hb)).
Qed.

(** X14.  The decode loses nothing: two pairs of bytes that decode to
    the same [float] are the same pair.  (The pairs [0x00, 0x00] and
    [0x80, 0x00] decode to plus and minus zero.) *)
Theorem convert_temp_data_to_float_injective (msb lsb msb' lsb' : Z) :
  0 <= msb < 256 -> 0 <= lsb < 256 ->
  0 <= msb' < 256 -> 0 <= lsb' < 256 ->
  convert_temp_data_to_float msb lsb = convert_temp_data_to_float msb' lsb' ->
  msb = msb' /\ lsb = lsb'.
Proof.
  intros Hm Hl Hm' Hl' E.
  destruct (decode_agrees_true msb lsb (decode_agrees_byte msb lsb Hm Hl))
    as (_ & _ & S).
  destruct (decode_agrees_true msb' lsb'
              (decode_agrees_byte msb' lsb' Hm' Hl'))
    as (_ & _ & S').
  pose proof (decoded_value msb lsb Hm Hl) as V.
  pose proof (decoded_value msb' lsb' Hm' Hl') as V'.
  rewrite E in S, V. rewrite S' in S. rewrite V' in V.
  unfold Qeq in V. cbn [Qnum Qden] in V.
  rewrite (testbit_7_byte msb Hm), (testbit_7_byte msb' Hm') in S.
  unfold signed_256, magnitude_256 in V.
  pose proof (Z.mod_pos_bound msb 128 ltac:(lia)).
  pose proof (Z.mod_pos_bound msb' 128 ltac:(lia)).
  pose proof (Z.div_mod msb 128 ltac:(lia)).
  pose proof (Z.div_mod msb' 128 ltac:(lia)).
  destruct (Z.leb_spec 128 msb), (Z.leb_spec 128 msb'); try discriminate S;
    destruct (Z.ltb_spec msb 128), (Z.ltb_spec msb' 128); try lia.
Qed.

Lemma convert_temp_data_to_float_injective_witness :
  convert_temp_data_to_float 0 0 <> convert_temp_data_to_float 128 0.
Proof.
  intros E.
  assert (H0 : 0 <= 0 < 256) by lia.
  assert (H1 : 0 <= 128 < 256) by lia.
  destruct (convert_temp_data_to_float_injective 0 0 128 0 H0 H0 H1 H0 E)
    as [H _].
  discriminate H.
Defined.

Lemma reading_agrees_all :
  forallb (fun msb => forallb (reading_agrees msb) all_bytes) all_bytes
  = true.
Proof. vm_compute. reflexivity. Qed.

Lemma reading_agrees_true (msb lsb : Z) :
  reading_agrees msb lsb = true ->
  valid_binary prec32 emax32 (convert_temp_data_to_float msb lsb) = true
  /\ start_analysis (convert_temp_data_to_float msb lsb)
     = class_of_bytes msb lsb.
Proof.
  unfold reading_agrees.
  generalize (convert_temp_data_to_float msb lsb) as r.
  intros r H. apply andb_true_iff in H as [V C].
  split; [exact V |].
  destruct (start_analysis r), (class_of_bytes msb lsb);
    (reflexivity || discriminate C).
Qed.

Lemma reading_agrees_byte (msb lsb : Z) :
  0 <= msb < 256 -> 0 <= lsb < 256 -> reading_agrees msb lsb = true.
Proof.
  intros Hm Hl.
  pose proof reading_agrees_all as H.
  rewrite forallb_forall in H.
  specialize (H msb (all_bytes_In msb Hm)).
  rewrite forallb_forall in H.
  exact (H lsb (all_bytes_In lsb Hl)).
Qed.

Lemma class_of_bytes_defined (msb lsb : Z) :
  class_of_bytes msb lsb <> UNDEFINED.
Proof.
  unfold class_of_bytes.
  destruct ((128 <=? msb) || (magnitude_256 msb lsb <=? 8960));
    [discriminate |].
  destruct (magnitude_256 msb lsb <=? 9216); [discriminate |].
  destruct (magnitude_256 msb lsb <=? 9728); discriminate.
Qed.

(** X15.  Every reading decodes to a valid binary32 number and is
    classified from its bytes alone: VERY_CRITICAL when the sign bit is
    set or the magnitude is at most 35 degrees (8960 units of 1/256),
    CRITICAL up to 36 degrees (9216), NORMAL up to 38 degrees (9728) and
    CRITICAL above; never UNDEFINED. *)
Theorem reading_classification (msb lsb : Z) :
  0 <= msb < 256 -> 0 <= lsb < 256 ->
  valid_binary prec32 emax32 (convert_temp_data_to_float msb lsb) = true
  /\ start_analysis (convert_temp_data_to_float msb lsb)
     = class_of_bytes msb lsb
  /\ start_analysis (convert_temp_data_to_float msb lsb) <> UNDEFINED.
Proof.
  intros Hm Hl.
  destruct (reading_agrees_true msb lsb (reading_agrees_byte msb lsb Hm Hl))
    as [V E].
  split; [exact V |]. split; [exact E |].
  rewrite E. apply class_of_bytes_defined.
Qed.

Lemma reading_classification_witness :
  0 <= 37 < 256 /\ 0 <= 51 < 256
  /\ start_analysis (convert_temp_data_to_float 37 51) = NORMAL.
Proof.
  assert (Hm : 0 <= 37 < 256) by lia.
  assert (Hl : 0 <= 51 < 256) by lia.
  split; [exact Hm |]. split; [exact Hl |].
  rewrite (proj1 (proj2 (reading_classification 37 51 Hm Hl))).
  vm_compute. reflexivity.
Defined.

End AnalysisMore.

(* ================================================================= *)
(** * More on the handlers: presses, advertisements, connections *)
(* ================================================================= *)

Module GatewayMore.
Import IEEE Analysis WhiteList Registry AppPacket Gateway Telemetry Trace.
Import WhiteListFacts GatewayFacts.

Section Handlers.
Context {hdr : app_packet_h}.

(** X16.  The mode after a button press is a function of the mode before
    and, for a long press in the unspecified mode, of the white list
    being empty: a medium press toggles between unspecified and
    registration and leaves deletion alone, a long press toggles between
    unspecified and deletion (entering it only with a white list that is
    not empty) and leaves registration alone.  No press changes the
    white list, the stored sample or the own address type, and a short
    press changes nothing at all.  The state after a press is the one in
    which its run ends: the long press that enters deletion sets the
    mode before it exports the white list, where the run may end. *)
Theorem press_transitions (s : gw_state) :
  g_device_mode (exec on_medium_button_press s)
  = match g_device_mode s with
    | UNSPECIFIED_MODE => REGISTRATION_MODE
    | REGISTRATION_MODE => UNSPECIFIED_MODE
    | DELETION_MODE => DELETION_MODE
    end
  /\ g_device_mode (exec on_long_button_press s)
     = match g_device_mode s with
       | UNSPECIFIED_MODE =>
           if white_list_is_empty (wl s) then UNSPECIFIED_MODE
           else DELETION_MODE
       | DELETION_MODE => UNSPECIFIED_MODE
       | REGISTRATION_MODE => REGISTRATION_MODE
       end
  /\ (forall press,
         In press [on_short_button_press; on_medium_button_press;
                   on_long_button_press] ->
         wl (exec press s) = wl s
         /\ temp_data (exec press s) = temp_data s
         /\ g_ble_addr_type (exec press s) = g_ble_addr_type s)
  /\ exec on_short_button_press s = s.
Proof.
  destruct s as [m t w d c].
  split; [| split; [| split]].
  - unfold on_medium_button_press. run.
    destruct m; cbn; try reflexivity.
    destruct (white_list_is_empty w); reflexivity.
  - unfold on_long_button_press, wl_export. run.
    destruct m; cbn; destruct (white_list_is_empty w); cbn;
      try reflexivity.
    destruct (get_addr_white_list w); reflexivity.
  - intros press [<- | [<- | [<- | []]]].
    + split; [| split]; reflexivity.
    + unfold on_medium_button_press. run.
      destruct m; cbn; try destruct (white_list_is_empty w); cbn;
        (split; [| split]; reflexivity).
    + unfold on_long_button_press, wl_export. run.
      destruct m; cbn; destruct (white_list_is_empty w); cbn;
        try (split; [| split]; reflexivity).
      destruct (get_addr_white_list w); cbn;
        (split; [| split]; reflexivity).
  - reflexivity.
Qed.

(** X17.  The calls a press issues.  Entering registration: LED on, then
    a discovery that lasts [BLE_HS_FOREVER] and filters nothing.
    Leaving registration by a medium press or deletion by a long press:
    the timer wake-up is armed with 5000000 microseconds exactly when
    the white list is not empty, then LED off, then deep sleep as the
    last call. *)
Theorem press_calls (s : gw_state) :
  let leave :=
    (if white_list_is_empty (wl s) then []
     else [esp_sleep_enable_timer_wakeup 5000000])
    ++ [led_turn_off; esp_deep_sleep_start] in
  (g_device_mode s = UNSPECIFIED_MODE ->
   calls (exec on_medium_button_press s)
   = calls s
     ++ issued_with (wl s)
          [led_turn_on;
           ble_gap_disc (g_ble_addr_type s) BLE_HS_FOREVER
                        (mk_disc_params 0x0040 0x0020 0 0 1 0)])
  /\ (g_device_mode s = REGISTRATION_MODE ->
      calls (exec on_medium_button_press s)
      = calls s ++ issued_with (wl s) leave)
  /\ (g_device_mode s = DELETION_MODE ->
      calls (exec on_long_button_press s)
      = calls s ++ issued_with (wl s) leave).
Proof.
  intros leave. subst leave. destruct s as [m t w d c].
  cbn [g_device_mode wl calls g_ble_addr_type].
  split; [| split]; intros ->.
  - unfold on_medium_button_press. run.
    rewrite <- app_assoc. reflexivity.
  - unfold on_medium_button_press. run.
    destruct (white_list_is_empty w); cbn;
      rewrite <- ?app_assoc; reflexivity.
  - unfold on_long_button_press. run.
    destruct (white_list_is_empty w); cbn;
      rewrite <- ?app_assoc; reflexivity.
Qed.

(** ** Advertisements *)

Lemma disc_deleting fields disc s :
  g_device_mode s = DELETION_MODE ->
  ble_gap_event (BLE_GAP_EVENT_DISC fields disc) s
  = delete_if_reachable fields disc s.
Proof.
  intros H. unfold ble_gap_event, bind, get_mode.
  rewrite H. reflexivity.
Qed.

Lemma delete_if_reachable_cases fields disc s :
  delete_if_reachable fields disc s = (Some tt, s)
  \/ (RSSI_ACCEPTABLE_LVL <= rssi disc
      /\ white_list_contains_addr (addr disc) (wl s) = true
      /\ (exists body,
             open_packet (mfg_data fields) (mfg_data_len fields)
             = Some (DEL_HEADER, body))
      /\ delete_if_reachable fields disc s
         = (Some tt,
            mk_gw (g_device_mode s) (g_ble_addr_type s) (wl s)
                  (temp_data s)
                  (calls s
                   ++ issued_with (wl s)
                        [ble_gap_disc_cancel;
                         ble_gap_connect (g_ble_addr_type s) (addr disc)
                                         BLE_HS_FOREVER]))).
Proof.
  unfold delete_if_reachable.
  destruct (Z.ltb_spec (rssi disc) RSSI_ACCEPTABLE_LVL) as [Hr | Hr];
    [left; reflexivity |].
  run.
  destruct (white_list_contains_addr (addr disc) (wl s)) eqn:C;
    cbn [negb]; [| left; reflexivity].
  destruct (open_packet (mfg_data fields) (mfg_data_len fields))
    as [[header body] |] eqn:O; [| left; reflexivity].
  destruct (Z.eqb_spec header DEL_HEADER) as [Hh | Hh];
    [| left; reflexivity].
  right. subst header.
  split; [exact Hr |]. split; [reflexivity |].
  split; [exists body; reflexivity |].
  run. rewrite <- app_assoc. reflexivity.
Qed.


(** The unspecified mode: the length of the packet decides whether the
    buffer can be declared, and the length of the body whether the two
    reads are inside it. *)
Lemma idle_disc_unfold fields disc s :
  g_device_mode s = UNSPECIFIED_MODE ->
  ble_gap_event (BLE_GAP_EVENT_DISC fields disc) s
  = if mfg_data_len fields - HEADER_SIZE <=? 0
    then undefined array_size_not_positive s
    else match open_packet (mfg_data fields) (mfg_data_len fields) with
         | None => (Some tt, s)
         | Some (header, buffer) =>
             if header =? DATA_HEADER then
               match buffer with
               | msb :: lsb :: _ =>
                   (Some tt,
                    mk_gw (g_device_mode s) (g_ble_addr_type s) (wl s)
                          (convert_temp_data_to_float msb lsb) (calls s))
               | _ => undefined read_out_of_bounds s
               end
             else (Some tt, s)
         end.
Proof.
  destruct s as [m t w d c]. cbn [g_device_mode]. intros ->.
  unfold ble_gap_event. run.
  destruct (mfg_data_len fields - HEADER_SIZE <=? 0); [reflexivity |].
  destruct (open_packet (mfg_data fields) (mfg_data_len fields))
    as [[header body] |]; [| reflexivity].
  destruct (header =? DATA_HEADER); [| reflexivity].
  destruct body as [| msb [| lsb rest]]; reflexivity.
Qed.

Lemma idle_disc_cases fields disc s :
  g_device_mode s = UNSPECIFIED_MODE ->
  let r := ble_gap_event (BLE_GAP_EVENT_DISC fields disc) s in
  r = (Some tt, s)
  \/ (exists why, r = undefined why s)
  \/ (exists msb lsb,
         r = (Some tt,
                mk_gw (g_device_mode s) (g_ble_addr_type s) (wl s)
                      (convert_temp_data_to_float msb lsb) (calls s))).
Proof.
  intros Hm r. subst r. rewrite (idle_disc_unfold _ _ _ Hm).
  destruct (mfg_data_len fields - HEADER_SIZE <=? 0);
    [right; left; eexists; reflexivity |].
  destruct (open_packet (mfg_data fields) (mfg_data_len fields))
    as [[header body] |]; [| left; reflexivity].
  destruct (header =? DATA_HEADER); [| left; reflexivity].
  destruct body as [| msb [| lsb rest]];
    try (right; left; eexists; reflexivity).
  right. right. exists msb, lsb. reflexivity.
Qed.


(** ** Connections *)



(** ** The white list under the handlers *)

Lemma wl_after_event (ev : ble_gap_event_t) (s : gw_state) :
  let w' := wl (exec (ble_gap_event ev) s) in
  w' = wl s
  \/ (exists u a, insert_gate a (wl s)
                  /\ w' = snd (push_to_white_list u a (wl s)))
  \/ (exists a, w' = snd (remove_from_white_list_by_addr a (wl s))).
Proof.
  cbv zeta. destruct ev as [fields disc | status h cd conn | reason | |];
    try (left; reflexivity).
  - unfold exec. destruct (g_device_mode s) eqn:Hm.
    + left.
      destruct (idle_disc_cases fields disc s Hm)
        as [H | [(why & H) | (msb & lsb & H)]];
        cbv zeta in H; rewrite H; reflexivity.
    + rewrite (disc_registering _ _ _ Hm).
      destruct (connect_if_interesting_cases fields disc s)
        as [H | (_ & _ & Hg & _ & [(u & _ & _ & H) | H])]; rewrite H;
        [left; reflexivity | | left; reflexivity].
      right. left. exists u, (addr disc). split; [exact Hg |].
      reflexivity.
    + rewrite (disc_deleting _ _ _ Hm).
      destruct (delete_if_reachable_cases fields disc s)
        as [H | (_ & _ & _ & H)]; rewrite H; left; reflexivity.
  - unfold ble_gap_event.
    generalize (ble_gap_conn_find conn cd) as peer. intros peer.
    cbv zeta. destruct (status =? 0).
    + run. destruct s as [m t w d c]. cbn. destruct m; cbn;
        try (left; reflexivity).
      destruct (white_list_contains_addr peer w); cbn;
        [| left; reflexivity].
      right. right. exists peer.
      destruct (remove_from_white_list_by_addr peer w) as [[|] w'];
        reflexivity.
    + right. right. exists peer. run.
      destruct (remove_from_white_list_by_addr peer (wl s)); reflexivity.
Qed.

(** X22.  A radio event changes the white list in one of two ways only,
    if at all: by one [push_to_white_list] made under the insertion gate
    or by one [remove_from_white_list_by_addr].  So every event keeps
    the invariant of the white list and leaves the uuid of every slot as
    it was. *)
Theorem events_keep_invariant (ev : ble_gap_event_t) (s : gw_state) :
  let w' := wl (exec (ble_gap_event ev) s) in
  (w' = wl s
   \/ (exists u a, insert_gate a (wl s)
                   /\ w' = snd (push_to_white_list u a (wl s)))
   \/ (exists a, w' = snd (remove_from_white_list_by_addr a (wl s))))
  /\ map device_uuid (white_list w') = map device_uuid (white_list (wl s))
  /\ (wl_inv (wl s) -> wl_inv w').
Proof.
  intros w'. pose proof (wl_after_event ev s) as H. cbv zeta in H.
  fold w' in H. split; [exact H |].
  destruct H as [-> | [(u & a & Hg & ->) | (a & ->)]].
  - split; [reflexivity | auto].
  - split; [apply push_uuids | intros I; now apply push_keeps].
  - split; [apply remove_uuids | intros I; now apply remove_keeps].
Qed.

(** ** The index of the interesting uuid *)

Lemma interesting_index_none uuids i w :
  (forall u, In u uuids -> uuid_is_interesting u w = false) ->
  interesting_index uuids i w = -1.
Proof.
  revert i. induction uuids as [| u rest IH]; intros i H; cbn;
    [reflexivity |].
  rewrite (H u (or_introl eq_refl)). apply IH.
  intros x Hx. apply H. now right.
Qed.

Lemma interesting_index_at pre u post i w :
  (forall x, In x pre -> uuid_is_interesting x w = false) ->
  uuid_is_interesting u w = true ->
  interesting_index (pre ++ u :: post) i w
  = to_int8 (i + Z.of_nat (length pre)).
Proof.
  revert i. induction pre as [| x pre IH]; intros i Hpre Hu; cbn [app].
  - cbn. rewrite Hu. f_equal. lia.
  - cbn [interesting_index]. rewrite (Hpre x (or_introl eq_refl)).
    rewrite IH; [| intros y Hy; apply Hpre; now right | exact Hu].
    f_equal. cbn [length]. lia.
Qed.

(** X23.  The search of [connect_if_interesting] yields [-1] when no
    advertised uuid is interesting and otherwise the position of the
    first interesting one, as converted to [int8_t]: the position itself
    below 128, and the position less 256, a negative index, from 128
    on. *)
Theorem interesting_index_first (w : wl_state) :
  (forall uuids,
      (forall u, In u uuids -> uuid_is_interesting u w = false) ->
      interesting_index uuids 0 w = -1)
  /\ (forall pre u post,
         (forall x, In x pre -> uuid_is_interesting x w = false) ->
         uuid_is_interesting u w = true ->
         let n := Z.of_nat (length pre) in
         interesting_index (pre ++ u :: post) 0 w = to_int8 n
         /\ (n < 128 -> to_int8 n = n)
         /\ (128 <= n < 256 -> to_int8 n = n - 256)).
Proof.
  split; [intros uuids H; now apply interesting_index_none |].
  intros pre u post Hpre Hu n. subst n.
  split; [now rewrite (interesting_index_at pre u post 0 w Hpre Hu) |].
  unfold to_int8. split; intros H.
  - rewrite Z.mod_small; lia.
  - replace (Z.of_nat (length pre) + 128)
      with (Z.of_nat (length pre) - 128 + 1 * 256) by lia.
    rewrite Z.mod_add, Z.mod_small; lia.
Qed.

(** ** From the advertisement to the classification *)


End Handlers.
End GatewayMore.

(* ================================================================= *)
(** * More sample runs *)
(* ================================================================= *)

Module SampleRunsMore.
Import IEEE Analysis WhiteList Registry AppPacket Gateway Samples Trace.
Import Telemetry WhiteListFacts GatewayFacts GatewayMore.

Lemma press_calls_witness :
  g_device_mode gw_registering = REGISTRATION_MODE
  /\ calls (exec on_medium_button_press gw_registering)
     = issued_with wl_sample
         [esp_sleep_enable_timer_wakeup 5000000; led_turn_off;
          esp_deep_sleep_start].
Proof.
  split; [reflexivity |].
  exact (proj1 (proj2 (press_calls gw_registering)) eq_refl).
Defined.




Lemma events_keep_invariant_witness :
  wl_inv (wl gw_registering_empty)
  /\ wl_inv
       (wl (@exec unit
              (@ble_gap_event sample_headers
                 (BLE_GAP_EVENT_DISC enroll_fields enroll_desc))
              gw_registering_empty)).
Proof.
  split; [exact wl_ready_inv |].
  exact (proj2 (proj2
           (@events_keep_invariant
              sample_headers
              (BLE_GAP_EVENT_DISC enroll_fields enroll_desc)
              gw_registering_empty))
           wl_ready_inv).
Defined.

Lemma interesting_index_first_witness :
  uuid_is_interesting (BLE_UUID16_INIT 0x1809) wl_sample = true
  /\ interesting_index
       [BLE_UUID16_INIT 0x1822; BLE_UUID16_INIT 0x1809] 0 wl_sample
     = to_int8 1.
Proof.
  split; [reflexivity |].
  refine (proj1 (proj2 (interesting_index_first wl_sample)
                       [BLE_UUID16_INIT 0x1822]
                       (BLE_UUID16_INIT 0x1809) [] _ eq_refl)).
  intros x [<- | []]. reflexivity.
Defined.


End SampleRunsMore.

(* ================================================================= *)
(** * Printing an address *)
(* ================================================================= *)

Module MacStrFacts.
Import MacStr.

Lemma hex_upper_injective (n m : Z) :
  0 <= n < 16 -> 0 <= m < 16 -> hex_upper n = hex_upper m -> n = m.
Proof.
  unfold hex_upper. intros Hn Hm.
  destruct (Z.ltb_spec n 10), (Z.ltb_spec m 10); lia.
Qed.

Lemma hex_pair_injective (a b : Z) :
  0 <= a < 256 -> 0 <= b < 256 -> hex_pair a = hex_pair b -> a = b.
Proof.
  intros Ha Hb H. unfold hex_pair in H. injection H as H1 H2.
  pose proof (Z.div_mod a 16 ltac:(lia)).
  pose proof (Z.div_mod b 16 ltac:(lia)).
  pose proof (Z.mod_pos_bound a 16 ltac:(lia)).
  pose proof (Z.mod_pos_bound b 16 ltac:(lia)).
  assert (0 <= a / 16 < 16)
    by (split; [apply Z.div_pos | apply Z.div_lt_upper_bound]; lia).
  assert (0 <= b / 16 < 16)
    by (split; [apply Z.div_pos | apply Z.div_lt_upper_bound]; lia).
  apply hex_upper_injective in H1; [| assumption | assumption].
  apply hex_upper_injective in H2; [| assumption | assumption].
  lia.
Qed.

Lemma six_bytes (addr : list Z) :
  length addr = 6%nat ->
  exists a0 a1 a2 a3 a4 a5, addr = [a0; a1; a2; a3; a4; a5].
Proof.
  intros H.
  destruct addr as [| a0 [| a1 [| a2 [| a3 [| a4 [| a5 [| a6 tl]]]]]]];
    try discriminate H.
  now exists a0, a1, a2, a3, a4, a5.
Qed.

Lemma get_mac_str_prefix (addr mem : list Z) :
  length addr = 6%nat ->
  (18 <= length mem)%nat ->
  firstn 18 (get_mac_str addr mem) = mac_text addr ++ [0].
Proof.
  intros Ha Hm.
  destruct (six_bytes addr Ha) as (a0 & a1 & a2 & a3 & a4 & a5 & ->).
  do 18 (destruct mem as [| ? mem]; [cbn in Hm; lia |]).
  destruct mem as [| x rest]; reflexivity.
Qed.

(** X25.  For an address of six bytes [get_mac_str] leaves in the
    eighteen-byte array the seventeen characters [XX:XX:XX:XX:XX:XX],
    the last byte of the address printed first, followed by a NUL.  The
    sixth [sprintf] also writes its terminating NUL at index 18, one past
    the end of the array: whatever byte followed the array is 0
    afterwards, and nothing beyond it is touched. *)
Theorem get_mac_str_layout (addr mem : list Z) (d : Z) :
  length addr = 6%nat ->
  (18 <= length mem)%nat ->
  firstn 18 (get_mac_str addr mem) = mac_text addr ++ [0]
  /\ length (get_mac_str addr mem) = length mem
  /\ ((19 <= length mem)%nat ->
      nth 18 (get_mac_str addr mem) d = 0
      /\ skipn 19 (get_mac_str addr mem) = skipn 19 mem).
Proof.
  intros Ha Hm.
  destruct (six_bytes addr Ha) as (a0 & a1 & a2 & a3 & a4 & a5 & ->).
  do 18 (destruct mem as [| ? mem]; [cbn in Hm; lia |]).
  destruct mem as [| x rest].
  - split; [reflexivity |]. split; [reflexivity |].
    intros H. cbn in H. lia.
  - split; [reflexivity |]. split; [reflexivity |].
    intros _. split; reflexivity.
Qed.

Lemma get_mac_str_layout_witness :
  length [1; 2; 3; 4; 5; 171] = 6%nat
  /\ (19 <= length (repeat 255 20))%nat
  /\ nth 18 (get_mac_str [1; 2; 3; 4; 5; 171] (repeat 255 20)) 255 = 0.
Proof.
  assert (H : (18 <= length (repeat 255 20))%nat) by (cbn; lia).
  assert (H' : (19 <= length (repeat 255 20))%nat) by (cbn; lia).
  split; [reflexivity |]. split; [exact H' |].
  exact (proj1 (proj2 (proj2 (get_mac_str_layout
                                [1; 2; 3; 4; 5; 171] (repeat 255 20) 255
                                eq_refl H))
                      H')).
Defined.

(** X26.  The text determines the address: two addresses of six bytes,
    each byte below 256, that [get_mac_str] prints as the same eighteen
    bytes are the same address. *)
Theorem get_mac_str_injective (addr addr' mem mem' : list Z) :
  length addr = 6%nat -> length addr' = 6%nat ->
  Forall (fun b => 0 <= b < 256) addr ->
  Forall (fun b => 0 <= b < 256) addr' ->
  (18 <= length mem)%nat -> (18 <= length mem')%nat ->
  firstn 18 (get_mac_str addr mem) = firstn 18 (get_mac_str addr' mem') ->
  addr = addr'.
Proof.
  intros Ha Ha' Hb Hb' Hm Hm' E.
  rewrite (get_mac_str_prefix addr mem Ha Hm) in E.
  rewrite (get_mac_str_prefix addr' mem' Ha' Hm') in E.
  destruct (six_bytes addr Ha) as (a0 & a1 & a2 & a3 & a4 & a5 & ->).
  destruct (six_bytes addr' Ha') as (b0 & b1 & b2 & b3 & b4 & b5 & ->).
  repeat match goal with
         | H : Forall _ (_ :: _) |- _ => inversion H; subst; clear H
         end.
  unfold mac_text in E. cbn [nth app hex_pair] in E.
  injection E as ? ? ? ? ? ? ? ? ? ? ? ?.
  f_equal; [| f_equal; [| f_equal; [| f_equal; [| f_equal; [| f_equal]]]]];
    try reflexivity; apply hex_pair_injective; try assumption;
    unfold hex_pair; congruence.
Qed.

Lemma get_mac_str_injective_witness :
  length [1; 2; 3; 4; 5; 171] = 6%nat
  /\ Forall (fun b => 0 <= b < 256) [1; 2; 3; 4; 5; 171]
  /\ firstn 18 (get_mac_str [1; 2; 3; 4; 5; 171] (repeat 255 20))
     = firstn 18 (get_mac_str [1; 2; 3; 4; 5; 171] (repeat 0 18))
  /\ [1; 2; 3; 4; 5; 171] = [1; 2; 3; 4; 5; 171].
Proof.
  assert (Hb : Forall (fun b => 0 <= b < 256) [1; 2; 3; 4; 5; 171])
    by (repeat constructor; lia).
  assert (H : (18 <= length (repeat 255 20))%nat) by (cbn; lia).
  assert (H' : (18 <= length (repeat 0 18))%nat) by (cbn; lia).
  assert (E : firstn 18 (get_mac_str [1; 2; 3; 4; 5; 171] (repeat 255 20))
              = firstn 18 (get_mac_str [1; 2; 3; 4; 5; 171] (repeat 0 18)))
    by reflexivity.
  split; [reflexivity |]. split; [exact Hb |]. split; [exact E |].
  exact (get_mac_str_injective
           [1; 2; 3; 4; 5; 171] [1; 2; 3; 4; 5; 171]
           (repeat 255 20) (repeat 0 18)
           eq_refl eq_refl Hb Hb H H' E).
Defined.

End MacStrFacts.

(* ================================================================= *)
(** * The start-up *)
(* ================================================================= *)

Module BootFacts.
Import IEEE WhiteList Registry Gateway Trace Boot.
Import WhiteListFacts GatewayFacts.

Lemma init_after_reset table :
  Z.of_nat (length table) = white_list_size ->
  init_white_list (mk_wl false 0 table)
  = (ESP_OK, mk_wl true (count_occupied table) table).
Proof.
  intros Hl. unfold init_white_list, get_white_list_len.
  cbn [wl_is_initialised white_list].
  pose proof (count_occupied_range table) as Hr.
  unfold white_list_size in Hl.
  rewrite count_loop_spec by lia. reflexivity.
Qed.

(** X27.  [app_main] after a wake from deep sleep, the table of
    [white_list_size] slots having survived in RTC memory.  Whatever the
    cause, the white list ends initialised with its length set to the
    number of occupied slots, the table and the stored sample are as
    they were, the mode is unspecified, and the invariant holds when the
    table's occupied addresses and uuids are distinct.  A wake by the
    button returns with no radio call issued.  Any other cause but the
    timer goes straight back to deep sleep.  A wake by the timer turns
    the LED on and then never reaches the discovery.  With an empty
    white list [get_addr_white_list] fails, the pointer it did not
    assign is handed to [ble_gap_wl_set] with the count 0 and then to
    [free].  With a white list that is not empty [get_addr_white_list]
    writes the first address past the end of its block. *)
Theorem app_main_wake cause own table sample :
  Z.of_nat (length table) = white_list_size ->
  let n := count_occupied table in
  let w := mk_wl true n table in
  let r := app_main cause (after_sleep own table sample) in
  wl (snd r) = w
  /\ g_device_mode (snd r) = UNSPECIFIED_MODE
  /\ temp_data (snd r) = sample
  /\ (addrs_unique table -> NoDup (map device_uuid table) -> wl_inv w)
  /\ match cause with
     | ESP_SLEEP_WAKEUP_GPIO =>
         fst r = Some [led_init GPIO_LED;
                       button_init GPIO_BUTTON 1000 5000 10000;
                       nvs_flash_init; init_ble; force_interupt]
         /\ calls (snd r) = []
     | ESP_SLEEP_WAKEUP_TIMER =>
         fst r = None
         /\ calls (snd r)
            = issued_with w
                (led_turn_on
                 :: (if n =? 0
                     then [ble_gap_wl_set None 0;
                           undefined_behaviour free_unassigned]
                     else [undefined_behaviour heap_overflow]))
     | ESP_SLEEP_WAKEUP_OTHER =>
         fst r = Some [led_init GPIO_LED;
                       button_init GPIO_BUTTON 1000 5000 10000;
                       nvs_flash_init; init_ble]
         /\ calls (snd r) = issued_with w [esp_deep_sleep_start]
     end.
Proof.
  intros Hl n w r. subst r.
  pose proof (count_occupied_range table) as Hr.
  unfold white_list_size in Hl.
  assert (Hc : count_loop table 0 = n).
  { subst n. rewrite count_loop_spec by lia. reflexivity. }
  assert (Hx : get_addr_white_list w
               = if n =? 0 then export_fail
                 else match occupied_addrs table with
                      | [] => export_ok n []
                      | a :: _ => export_overflow n [] a
                      end).
  { unfold get_addr_white_list, w.
    cbn [wl_is_initialised white_list_len white_list negb].
    destruct (n =? 0); [reflexivity |].
    apply addr_loop_tight. unfold sizeof_ble_addr_t. lia. }
  assert (Ho : n <> 0 -> exists a rest, occupied_addrs table = a :: rest).
  { intros Hn. unfold n in Hn. rewrite count_occupied_addrs in Hn.
    destruct (occupied_addrs table) as [| a rest]; [now cbn in Hn |].
    eauto. }
  unfold app_main, after_sleep, init_white_list, get_white_list_len.
  unfold app_main_switch, wl_export.
  unfold bind, ret, when, get_addr_type, wl_get, wl_do, issue,
    undefined, free.
  cbn -[get_addr_white_list]. rewrite !Hc. fold w.
  assert (Hinv : addrs_unique table -> NoDup (map device_uuid table) ->
                 wl_inv w).
  { intros Hu Hd. unfold wl_inv, w.
    cbn [wl_is_initialised white_list_len white_list]. auto. }
  destruct cause; cbn -[get_addr_white_list].
  - split; [reflexivity |]. split; [reflexivity |].
    split; [reflexivity |]. split; [exact Hinv |]. split; reflexivity.
  - rewrite Hx. destruct (Z.eqb_spec n 0) as [E | E].
    + cbn. split; [reflexivity |]. split; [reflexivity |].
      split; [reflexivity |]. split; [exact Hinv |].
      split; [reflexivity |]. now rewrite E.
    + destruct (Ho E) as (a & rest & ->). cbn.
      split; [reflexivity |]. split; [reflexivity |].
      split; [reflexivity |]. split; [exact Hinv |]. split; reflexivity.
  - split; [reflexivity |]. split; [reflexivity |].
    split; [reflexivity |]. split; [exact Hinv |]. split; reflexivity.
Qed.

Lemma app_main_wake_witness :
  Z.of_nat (length (white_list wl_sample)) = white_list_size
  /\ fst (app_main ESP_SLEEP_WAKEUP_TIMER
                   (after_sleep 0 (white_list wl_sample)
                                (S754_zero false)))
     = None
  /\ calls (snd (app_main ESP_SLEEP_WAKEUP_TIMER
                          (after_sleep 0 (white_list wl_sample)
                                       (S754_zero false))))
     = issued_with wl_sample
         [led_turn_on; undefined_behaviour heap_overflow].
Proof.
  split; [reflexivity |].
  exact (proj2 (proj2 (proj2 (proj2
           (app_main_wake ESP_SLEEP_WAKEUP_TIMER 0
                          (white_list wl_sample) (S754_zero false)
                          eq_refl))))).
Defined.

End BootFacts.
